(** * RemoteIndex: the client side of the platefile index service

    A shallow embedding of [src/vw/Plate/RemoteIndex.cc]: the address
    parser [parse_url], the two constructors, the deferred write queue with
    its flush, and the read, write and transaction operations.  Strings
    are [string], C++ [int]s are [Z], the [std::queue] of pending
    updates is a [list] (push at the back, pop at the front), and the
    calls made on the [IndexService] stub are recorded, in order, on a
    wire.  The computation of the output file name in
    [src/vw/tools/grassfirealpha.cc] is embedded as well. *)

From Stdlib Require Import String Ascii List ZArith Lia Bool.
From Stdlib Require DecimalString DecimalFacts DecimalNat.
Import ListNotations.
Local Open Scope string_scope.

(** ** The pieces of [std::string] and Boost that [parse_url] uses *)

Module Str.

(** [s.find(pat)]: the position of the first occurrence of [pat] in [s];
    [None] stands for [npos]. *)
Fixpoint find (pat s : string) : option nat :=
  if prefix pat s then Some 0
  else match s with
       | EmptyString => None
       | String _ s' => option_map S (find pat s')
       end.

(** [s.substr(pos)]: the suffix from [pos]; [None] when [pos > s.size()],
    where the library throws [std::out_of_range]. *)
Fixpoint substr (pos : nat) (s : string) : option string :=
  match pos with
  | 0 => Some s
  | S p => match s with
           | EmptyString => None
           | String _ s' => substr p s'
           end
  end.

(** [boost::is_any_of(set)]. *)
Fixpoint is_any_of (set : string) (c : ascii) : bool :=
  match set with
  | EmptyString => false
  | String d set' => Ascii.eqb c d || is_any_of set' c
  end.

(** [boost::split(result, s, pred)] with the default
    [token_compress_off]: every separator ends a token, so the empty
    string gives one empty token and [n] separators give [n + 1] tokens. *)
Fixpoint split (pred : ascii -> bool) (s : string) : list string :=
  match s with
  | EmptyString => [EmptyString]
  | String c s' =>
      if pred c then EmptyString :: split pred s'
      else match split pred s' with
           | tok :: toks => String c tok :: toks
           | [] => [String c EmptyString]
           end
  end.

(** Number of characters of [s] that satisfy [pred]. *)
Fixpoint count (pred : ascii -> bool) (s : string) : nat :=
  match s with
  | EmptyString => 0
  | String c s' => (if pred c then 1 else 0) + count pred s'
  end.

Definition INT_MAX : Z := 2147483647.
Definition INT_MIN : Z := -2147483648.

Definition digit_of (c : ascii) : option Z :=
  let n := Z.of_nat (nat_of_ascii c) in
  if (48 <=? n)%Z && (n <=? 57)%Z then Some (n - 48)%Z else None.

(** The value of a string of decimal digits, most significant first;
    [None] as soon as a character is not a digit. *)
Fixpoint digits_value (acc : Z) (s : string) : option Z :=
  match s with
  | EmptyString => Some acc
  | String c s' =>
      match digit_of c with
      | Some d => digits_value (10 * acc + d)%Z s'
      | None => None
      end
  end.

(** The digits after the sign: at least one digit and nothing else,
    and a value that fits an [int]. *)
Definition cast_body (negative : bool) (body : string) : option Z :=
  match body with
  | EmptyString => None
  | String _ _ =>
      match digits_value 0 body with
      | None => None
      | Some m =>
          let v := if negative then (- m)%Z else m in
          if (INT_MIN <=? v)%Z && (v <=? INT_MAX)%Z then Some v else None
      end
  end.

(** [boost::lexical_cast<int>(s)]: an optional sign, then the digits;
    [None] where the library throws [boost::bad_lexical_cast]. *)
Definition lexical_cast_int (s : string) : option Z :=
  match s with
  | String "-"%char body => cast_body true body
  | String "+"%char body => cast_body false body
  | _ => cast_body false s
  end.

(** [size_t] is 64 bits wide, and [std::string::npos] is its largest
    value. *)
Definition SIZE_MAX : N := 18446744073709551615.
Definition npos : N := SIZE_MAX.

(** [s.size()]. *)
Definition size (s : string) : N := N.of_nat (String.length s).

(** Subtraction of two [size_t] values. *)
Definition size_sub (a b : N) : N :=
  ((a + (SIZE_MAX + 1) - b) mod (SIZE_MAX + 1))%N.

(** The position of the last occurrence of [pat] in [s], if there is
    one. *)
Fixpoint rfind_pos (pat s : string) : option nat :=
  match s with
  | EmptyString => if prefix pat s then Some 0 else None
  | String _ s' =>
      match rfind_pos pat s' with
      | Some k => Some (S k)
      | None => if prefix pat s then Some 0 else None
      end
  end.

(** [s.rfind(pat)]. *)
Definition rfind (pat s : string) : N :=
  match rfind_pos pat s with
  | Some k => N.of_nat k
  | None => npos
  end.

(** [s.substr(pos, count)]: at most [count] characters from [pos] on;
    [None] when [pos > s.size()], where the library throws
    [std::out_of_range]. *)
Definition substr_count (pos count : N) (s : string) : option string :=
  if (size s <? pos)%N then None
  else Some (substring (N.to_nat pos)
                       (N.to_nat (N.min count (size s - pos))) s).

End Str.

(** ** Exceptions and the address parser *)

(** What a call that can throw ends with. *)
Inductive exn : Type :=
| ArgumentErr (what : string)   (* vw::ArgumentErr, with its message *)
| bad_lexical_cast              (* boost::bad_lexical_cast *)
| out_of_range.                 (* std::out_of_range, from substr *)

Inductive outcome (A : Type) : Type :=
| Normal (a : A)
| Throws (e : exn).
Arguments Normal {A} a.
Arguments Throws {A} e.

(** The four reference parameters of [parse_url]. *)
Record url_fields : Type := mk_url_fields {
  hostname : string;
  port : Z;
  exchange : string;
  platefile_name : string
}.

Definition set_hostname (v : string) (o : url_fields) : url_fields :=
  mk_url_fields v (port o) (exchange o) (platefile_name o).
Definition set_port (v : Z) (o : url_fields) : url_fields :=
  mk_url_fields (hostname o) v (exchange o) (platefile_name o).
Definition set_exchange (v : string) (o : url_fields) : url_fields :=
  mk_url_fields (hostname o) (port o) v (platefile_name o).
Definition set_platefile_name (v : string) (o : url_fields) : url_fields :=
  mk_url_fields (hostname o) (port o) (exchange o) v.

Definition malformed_url_msg (url : string) : string :=
  "RemoteIndex::parse_url() -- this does not appear to be a well-formed URL: "
    ++ url.
Definition bad_host_port_msg (url : string) : string :=
  "RemoteIndex::parse_url() -- " ++
  "could not parse hostname and port from URL string: " ++ url.
Definition bad_segments_msg (url : string) : string :=
  "RemoteIndex::parse_url() -- " ++ "could not parse URL string: " ++ url.

(** [parse_url(url, hostname, port, exchange, platefile_name)].  The
    result pairs the values the four references hold when the call ends
    with the way it ends; an assignment made before a throw stays made. *)
Definition parse_url (url : string) (out : url_fields)
  : url_fields * outcome unit :=
  match Str.find "pf://" url with
  | Some 0 =>
      match Str.substr 5 url with
      | None => (out, Throws out_of_range)
      | Some substr =>
          match Str.split (Str.is_any_of "/") substr with
          | [s0; s1] =>
              let out := set_hostname "localhost" out in
              let out := set_port 5672 out in
              let out := set_exchange s0 out in
              let out := set_platefile_name s1 out in
              (out, Normal tt)
          | [s0; s1; s2] =>
              let out := set_exchange s1 out in
              let out := set_platefile_name s2 out in
              match Str.split (Str.is_any_of ":") s0 with
              | [h] =>
                  let out := set_hostname h out in
                  let out := set_port 5672 out in
                  (out, Normal tt)
              | [h; p] =>
                  let out := set_hostname h out in
                  match Str.lexical_cast_int p with
                  | Some n => (set_port n out, Normal tt)
                  | None => (out, Throws bad_lexical_cast)
                  end
              | _ => (out, Throws (ArgumentErr (bad_host_port_msg url)))
              end
          | _ => (out, Throws (ArgumentErr (bad_segments_msg url)))
          end
      end
  | _ => (out, Throws (ArgumentErr (malformed_url_msg url)))
  end.

(** ** Messages of the index service

    [IndexHeader] with the fields this file reads or writes. *)
Module IndexHeader.
Record t : Type := mk {
  platefile_id : Z;
  version : Z;
  tile_size : Z;
  tile_filetype : string;
  pixel_format : Z;
  channel_type : Z
}.

Definition set_platefile_id (v : Z) (h : t) : t :=
  mk v (version h) (tile_size h) (tile_filetype h)
     (pixel_format h) (channel_type h).
End IndexHeader.

Module IndexOpenReply.
Record t : Type := mk {
  index_header : IndexHeader.t;
  short_plate_filename : string;
  full_plate_filename : string
}.
End IndexOpenReply.

(** What [new AmqpConnection(hostname, port)] and
    [new AmqpRpcClient(conn, INDEX_EXCHANGE, queue_name, routing_key)]
    are built from. *)
Record AmqpRpcClient : Type := mk_AmqpRpcClient {
  conn_hostname : string;
  conn_port : Z;
  rpc_exchange : string;
  rpc_queue_name : string;
  rpc_routing_key : string
}.

Module RemoteIndex.
Section Client.

(** [TileHeader] and [IndexRecord] are only copied by this file, and a
    [BBox2i] is only asked for its corner and size. *)
Context {TileHeader IndexRecord BBox2i : Type}.
Variables bbox_min_x bbox_min_y bbox_width bbox_height : BBox2i -> Z.

(** [INDEX_EXCHANGE] of [vw/Plate/common.h] and
    [AmqpRpcClient::UniqueQueueName]. *)
Variable INDEX_EXCHANGE : string.
Variable UniqueQueueName : string -> string.

Record IndexWriteUpdate : Type := mk_IndexWriteUpdate {
  platefile_id : Z;
  header : TileHeader;
  record : IndexRecord
}.

(** One constructor for each method of [IndexService::Stub], carrying
    the fields of its request message. *)
Inductive Request : Type :=
| OpenRequest (plate_name : string)
| CreateRequest (plate_name : string) (index_header : IndexHeader.t)
| ReadRequest (platefile_id col row level transaction_id : Z)
              (exact_transaction_match : bool)
| MultiReadRequest (platefile_id col row level
                    begin_transaction_id end_transaction_id : Z)
| WriteRequest (platefile_id size : Z)
| MultiWriteUpdate (write_updates : list IndexWriteUpdate)
| WriteComplete (platefile_id blob_id blob_offset : Z)
| ValidTiles (platefile_id level region_col region_row
              region_width region_height
              begin_transaction_id end_transaction_id min_num_matches : Z)
| NumLevelsRequest (platefile_id : Z)
| TransactionRequest (platefile_id : Z) (description : string)
                     (transaction_id_override : Z)
| TransactionComplete (platefile_id transaction_id : Z)
                      (update_read_cursor : bool)
| TransactionFailed (platefile_id transaction_id : Z)
| TransactionCursor (platefile_id : Z).

Record IndexMultiReadReply : Type := mk_IndexMultiReadReply {
  transaction_ids : list Z;
  index_records : list IndexRecord
}.

(** The response message of each method; a message with a single field
    is that field, and [RpcNullMessage] is [unit]. *)
Definition Reply (r : Request) : Type :=
  match r with
  | OpenRequest _ | CreateRequest _ _ => IndexOpenReply.t
  | ReadRequest _ _ _ _ _ _ => IndexRecord           (* index_record *)
  | MultiReadRequest _ _ _ _ _ _ => IndexMultiReadReply
  | WriteRequest _ _ => Z                            (* blob_id *)
  | MultiWriteUpdate _ => unit
  | WriteComplete _ _ _ => unit
  | ValidTiles _ _ _ _ _ _ _ _ _ => list TileHeader  (* tile_headers *)
  | NumLevelsRequest _ => Z                          (* num_levels *)
  | TransactionRequest _ _ _ => Z                    (* transaction_id *)
  | TransactionComplete _ _ _ => unit
  | TransactionFailed _ _ => unit
  | TransactionCursor _ => Z                         (* transaction_id *)
  end.

(** The service behind the stub: what it answers to a request, given
    the requests this client sent it before. *)
Variable service : list Request -> forall r : Request, Reply r.

(** The data members of a [RemoteIndex]. *)
Record members : Type := mk_members {
  m_rpc_controller : AmqpRpcClient;
  m_platefile_id : Z;
  m_index_header : IndexHeader.t;
  m_short_plate_filename : string;
  m_full_plate_filename : string;
  m_write_queue : list IndexWriteUpdate
}.

(** A client together with the requests it has issued so far. *)
Record world : Type := mk_world {
  self : members;
  wire : list Request
}.

Definition M (A : Type) : Type := world -> A * world.

Definition ret {A : Type} (a : A) : M A := fun w => (a, w).

Definition bind {A B : Type} (c : M A) (k : A -> M B) : M B :=
  fun w => let (a, w') := c w in k a w'.

Notation "x <- c ;; k" := (bind c (fun x => k))
  (at level 61, c at next level, right associativity).
Notation "c ;; k" := (bind c (fun _ => k))
  (at level 61, right associativity).

Definition this : M members := fun w => (self w, w).

Definition with_write_queue (q : list IndexWriteUpdate) (s : members)
  : members :=
  mk_members (m_rpc_controller s) (m_platefile_id s) (m_index_header s)
             (m_short_plate_filename s) (m_full_plate_filename s) q.

Definition set_write_queue (q : list IndexWriteUpdate) : M unit :=
  fun w => (tt, mk_world (with_write_queue q (self w)) (wire w)).

(** A call through [m_index_service]: the request goes on the wire and
    the response comes back filled in. *)
Definition call (r : Request) : M (Reply r) :=
  fun w => (service (wire w) r, mk_world (self w) (wire w ++ [r])).

(** *** Constructors and destructor *)

(** The locals [hostname], [port], [routing_key] and [platefile_name]
    of a constructor before [parse_url] fills them; [port] is declared
    without an initial value. *)
Definition locals (indeterminate : Z) : url_fields :=
  mk_url_fields "" indeterminate "" "".

Definition connect (a : url_fields) : AmqpRpcClient :=
  let queue_name :=
    UniqueQueueName ("remote_index_" ++ platefile_name a) in
  mk_AmqpRpcClient (hostname a) (port a) INDEX_EXCHANGE queue_name
                   (exchange a).

(** Both constructors end the same way, on the [IndexOpenReply]. *)
Definition opened (ctl : AmqpRpcClient) (request : Request)
           (response : IndexOpenReply.t) : world :=
  let m_index_header := IndexOpenReply.index_header response in
  mk_world
    (mk_members ctl (IndexHeader.platefile_id m_index_header)
                m_index_header
                (IndexOpenReply.short_plate_filename response)
                (IndexOpenReply.full_plate_filename response) [])
    [request].

(** [RemoteIndex(url)], for opening an existing index. *)
Definition open (url : string) (indeterminate : Z) : outcome world :=
  match parse_url url (locals indeterminate) with
  | (_, Throws e) => Throws e
  | (a, Normal _) =>
      let request := OpenRequest (platefile_name a) in
      Normal (opened (connect a) request (service [] request))
  end.

(** [RemoteIndex(url, index_header_info)], for creating a new index. *)
Definition create (url : string) (index_header_info : IndexHeader.t)
           (indeterminate : Z) : outcome world :=
  match parse_url url (locals indeterminate) with
  | (_, Throws e) => Throws e
  | (a, Normal _) =>
      let index_header_info :=
        IndexHeader.set_platefile_id 0 index_header_info in
      let request := CreateRequest (platefile_name a) index_header_info in
      Normal (opened (connect a) request (service [] request))
  end.

(** *** The write queue *)

(** The loop of [flush_write_queue]: while the queue is not empty, its
    front is added to the request and popped.  The result is the queue
    and the request's [write_updates] when the loop ends. *)
Fixpoint drain (queue write_updates : list IndexWriteUpdate)
  : list IndexWriteUpdate * list IndexWriteUpdate :=
  match queue with
  | [] => (queue, write_updates)
  | front :: rest => drain rest (write_updates ++ [front])
  end.

Definition flush_write_queue : M unit :=
  t <- this ;;
  let (queue, write_updates) := drain (m_write_queue t) [] in
  set_write_queue queue ;;
  call (MultiWriteUpdate write_updates) ;;
  ret tt.

(** [~RemoteIndex()]. *)
Definition destroy : M unit := flush_write_queue.

Definition max_pending_write_updates : nat := 10.

Definition write_update (header : TileHeader) (record : IndexRecord)
  : M unit :=
  t <- this ;;
  let request := mk_IndexWriteUpdate (m_platefile_id t) header record in
  set_write_queue (m_write_queue t ++ [request]) ;;
  t <- this ;;
  if Nat.leb max_pending_write_updates (List.length (m_write_queue t))
  then flush_write_queue
  else ret tt.

(** *** Reads and enumeration *)

Definition read_request (col row level transaction_id : Z)
           (exact_transaction_match : bool) : M IndexRecord :=
  flush_write_queue ;;
  t <- this ;;
  call (ReadRequest (m_platefile_id t) col row level transaction_id
                    exact_transaction_match).

(** The result list pairs the i-th transaction id with the i-th record,
    for every i below [transaction_ids_size()]; the reply is taken to
    hold a record for each id, as [Get(i)] requires. *)
Definition multi_read_request (col row level begin_transaction_id
                               end_transaction_id : Z)
  : M (list (Z * IndexRecord)) :=
  flush_write_queue ;;
  t <- this ;;
  response <- call (MultiReadRequest (m_platefile_id t) col row level
                      begin_transaction_id end_transaction_id) ;;
  ret (combine (transaction_ids response) (index_records response)).

Definition valid_tiles (level : Z) (region : BBox2i)
           (begin_transaction_id end_transaction_id min_num_matches : Z)
  : M (list TileHeader) :=
  flush_write_queue ;;
  t <- this ;;
  call (ValidTiles (m_platefile_id t) level
          (bbox_min_x region) (bbox_min_y region)
          (bbox_width region) (bbox_height region)
          begin_transaction_id end_transaction_id min_num_matches).

Definition num_levels : M Z :=
  flush_write_queue ;;
  t <- this ;;
  call (NumLevelsRequest (m_platefile_id t)).

(** *** The rest of the write protocol *)

Definition write_request (size : Z) : M Z :=
  t <- this ;;
  call (WriteRequest (m_platefile_id t) size).

Definition write_complete (blob_id blob_offset : Z) : M unit :=
  flush_write_queue ;;
  t <- this ;;
  call (WriteComplete (m_platefile_id t) blob_id blob_offset).

(** *** Transactions *)

Definition transaction_request (transaction_description : string)
           (transaction_id_override : Z) : M Z :=
  t <- this ;;
  call (TransactionRequest (m_platefile_id t) transaction_description
                           transaction_id_override).

Definition transaction_complete (transaction_id : Z)
           (update_read_cursor : bool) : M unit :=
  flush_write_queue ;;
  t <- this ;;
  call (TransactionComplete (m_platefile_id t) transaction_id
                            update_read_cursor).

Definition transaction_failed (transaction_id : Z) : M unit :=
  flush_write_queue ;;
  t <- this ;;
  call (TransactionFailed (m_platefile_id t) transaction_id).

Definition transaction_cursor : M Z :=
  t <- this ;;
  call (TransactionCursor (m_platefile_id t)).

(** *** Accessors of the cached header *)

Definition version : M Z :=
  t <- this ;; ret (IndexHeader.version (m_index_header t)).
Definition platefile_name : M string :=
  t <- this ;; ret (m_full_plate_filename t).
Definition index_header : M IndexHeader.t :=
  t <- this ;; ret (m_index_header t).
Definition tile_size : M Z :=
  t <- this ;; ret (IndexHeader.tile_size (m_index_header t)).
Definition tile_filetype : M string :=
  t <- this ;; ret (IndexHeader.tile_filetype (m_index_header t)).
Definition pixel_format : M Z :=
  t <- this ;; ret (IndexHeader.pixel_format (m_index_header t)).
Definition channel_type : M Z :=
  t <- this ;; ret (IndexHeader.channel_type (m_index_header t)).

(** *** Sequences of calls on one client *)

Inductive operation : Type :=
| do_read_request (col row level transaction_id : Z)
                  (exact_transaction_match : bool)
| do_multi_read_request (col row level begin_transaction_id
                         end_transaction_id : Z)
| do_write_request (size : Z)
| do_write_update (header : TileHeader) (record : IndexRecord)
| do_write_complete (blob_id blob_offset : Z)
| do_valid_tiles (level : Z) (region : BBox2i)
                 (begin_transaction_id end_transaction_id
                  min_num_matches : Z)
| do_num_levels
| do_version
| do_platefile_name
| do_index_header
| do_tile_size
| do_tile_filetype
| do_pixel_format
| do_channel_type
| do_transaction_request (transaction_description : string)
                         (transaction_id_override : Z)
| do_transaction_complete (transaction_id : Z) (update_read_cursor : bool)
| do_transaction_failed (transaction_id : Z)
| do_transaction_cursor.

Definition discard {A : Type} (c : M A) : M unit := c ;; ret tt.

(** The effect of one public call, its result dropped. *)
Definition perform (o : operation) : M unit :=
  match o with
  | do_read_request c r l t e => discard (read_request c r l t e)
  | do_multi_read_request c r l b e =>
      discard (multi_read_request c r l b e)
  | do_write_request n => discard (write_request n)
  | do_write_update h r => write_update h r
  | do_write_complete b o => write_complete b o
  | do_valid_tiles l g b e n => discard (valid_tiles l g b e n)
  | do_num_levels => discard num_levels
  | do_version => discard version
  | do_platefile_name => discard platefile_name
  | do_index_header => discard index_header
  | do_tile_size => discard tile_size
  | do_tile_filetype => discard tile_filetype
  | do_pixel_format => discard pixel_format
  | do_channel_type => discard channel_type
  | do_transaction_request d o => discard (transaction_request d o)
  | do_transaction_complete t u => transaction_complete t u
  | do_transaction_failed t => transaction_failed t
  | do_transaction_cursor => discard transaction_cursor
  end.

Fixpoint perform_all (os : list operation) (w : world) : world :=
  match os with
  | [] => w
  | o :: os' => perform_all os' (snd (perform o w))
  end.

(** [write_update] called once for each pair, in order. *)
Fixpoint write_updates_of (us : list (TileHeader * IndexRecord))
         (w : world) : world :=
  match us with
  | [] => w
  | u :: us' =>
      write_updates_of us' (snd (write_update (fst u) (snd u) w))
  end.

(** *** Vocabulary of the statements about the wire *)

(** The queue entries that [write_update] builds on client [w] for a
    list of tiles. *)
Definition entries_of (w : world) (us : list (TileHeader * IndexRecord))
  : list IndexWriteUpdate :=
  map (fun u => mk_IndexWriteUpdate (m_platefile_id (self w))
                                    (fst u) (snd u)) us.

(** The pending updates of a client. *)
Definition pending (w : world) : list IndexWriteUpdate :=
  m_write_queue (self w).

(** The client [w] with its queue replaced and some more requests
    sent. *)
Definition after (w : world) (queue : list IndexWriteUpdate)
           (sent : list Request) : world :=
  mk_world (with_write_queue queue (self w)) (wire w ++ sent).

(** Between [w] and [w'] the client sent one batch carrying the updates
    that were pending in [w], and after it exactly one more request. *)
Definition flushed_before_own (w w' : world) : Prop :=
  exists own : Request,
    wire w' = (wire w ++ [MultiWriteUpdate (pending w); own])%list.

(** Between [w] and [w'] nothing was sent. *)
Definition silent (w w' : world) : Prop := wire w' = wire w.

(** A client as one of the two constructors leaves it. *)
Definition constructed (w : world) : Prop :=
  (exists url indeterminate, open url indeterminate = Normal w) \/
  (exists url index_header_info indeterminate,
      create url index_header_info indeterminate = Normal w).

(** *** Vocabulary of the statements about runs of operations *)

(** The requests of the two constructors. *)
Definition is_session (r : Request) : bool :=
  match r with
  | OpenRequest _ | CreateRequest _ _ => true
  | _ => false
  end.

Definition is_batch (r : Request) : bool :=
  match r with
  | MultiWriteUpdate _ => true
  | _ => false
  end.

(** The requests of the seven operations that start with a flush. *)
Definition flushes_first (r : Request) : bool :=
  match r with
  | ReadRequest _ _ _ _ _ _ | MultiReadRequest _ _ _ _ _ _
  | WriteComplete _ _ _ | ValidTiles _ _ _ _ _ _ _ _ _
  | NumLevelsRequest _ | TransactionComplete _ _ _
  | TransactionFailed _ _ => true
  | _ => false
  end.

(** The requests of the three operations that do not. *)
Definition standalone (r : Request) : bool :=
  match r with
  | WriteRequest _ _ | TransactionRequest _ _ _ | TransactionCursor _ => true
  | _ => false
  end.

(** The updates a request carries. *)
Definition batch_of (r : Request) : list IndexWriteUpdate :=
  match r with
  | MultiWriteUpdate write_updates => write_updates
  | _ => []
  end.

(** All the updates sent on a wire, in the order they were sent. *)
Definition sent_updates (rs : list Request) : list IndexWriteUpdate :=
  flat_map batch_of rs.

(** The platefile ids a request carries. *)
Definition request_ids (r : Request) : list Z :=
  match r with
  | OpenRequest _ | CreateRequest _ _ => []
  | MultiWriteUpdate write_updates => map platefile_id write_updates
  | ReadRequest id _ _ _ _ _ | MultiReadRequest id _ _ _ _ _
  | WriteRequest id _ | WriteComplete id _ _
  | ValidTiles id _ _ _ _ _ _ _ _ | NumLevelsRequest id
  | TransactionRequest id _ _ | TransactionComplete id _ _
  | TransactionFailed id _ | TransactionCursor id => [id]
  end.

(** The queue entries that an operation makes on a client whose
    platefile id is [id]. *)
Definition enqueued_by (id : Z) (o : operation) : list IndexWriteUpdate :=
  match o with
  | do_write_update h r => [mk_IndexWriteUpdate id h r]
  | _ => []
  end.

Definition enqueued (id : Z) (os : list operation)
  : list IndexWriteUpdate :=
  flat_map (enqueued_by id) os.

(** The operations that start with a flush. *)
Definition flushing (o : operation) : bool :=
  match o with
  | do_read_request _ _ _ _ _ | do_multi_read_request _ _ _ _ _
  | do_write_complete _ _ | do_valid_tiles _ _ _ _ _ | do_num_levels
  | do_transaction_complete _ _ | do_transaction_failed _ => true
  | _ => false
  end.

(** On the wire, every request of an operation that starts with a flush
    comes right after a batch. *)
Fixpoint flush_ordered (after_batch : bool) (rs : list Request) : bool :=
  match rs with
  | [] => true
  | r :: rs' =>
      (if flushes_first r then after_batch else true)
      && flush_ordered (is_batch r) rs'
  end.

(** The five shapes of what one operation does to a client: nothing; its
    own request; a batch with the pending updates and then its own
    request; one more entry in the queue; or one more entry and a batch
    with the whole queue.  The list holds the entries that were made. *)
Inductive effect (w : world) : list IndexWriteUpdate -> world -> Prop :=
| effect_none : effect w [] w
| effect_own (own : Request) :
    standalone own = true ->
    request_ids own = [m_platefile_id (self w)] ->
    effect w [] (mk_world (self w) (wire w ++ [own]))
| effect_flush_own (own : Request) :
    flushes_first own = true ->
    request_ids own = [m_platefile_id (self w)] ->
    effect w [] (after w [] [MultiWriteUpdate (pending w); own])
| effect_enqueue (u : IndexWriteUpdate) :
    platefile_id u = m_platefile_id (self w) ->
    List.length (pending w ++ [u]) < max_pending_write_updates ->
    effect w [u] (after w (pending w ++ [u]) [])
| effect_enqueue_flush (u : IndexWriteUpdate) :
    platefile_id u = m_platefile_id (self w) ->
    max_pending_write_updates <= List.length (pending w ++ [u]) ->
    effect w [u] (after w [] [MultiWriteUpdate (pending w ++ [u])]).

End Client.
End RemoteIndex.

(** ** A small instance, for concrete runs

    Tiles and records are numbers, a region carries nothing, and the
    service answers every request with fixed values. *)
Module Example.

Definition header : IndexHeader.t :=
  IndexHeader.mk 42 1 256 "png" 3 1.

Definition service (_ : list (@RemoteIndex.Request nat nat))
           (r : @RemoteIndex.Request nat nat) : RemoteIndex.Reply r :=
  match r return RemoteIndex.Reply r with
  | RemoteIndex.OpenRequest _ | RemoteIndex.CreateRequest _ _ =>
      IndexOpenReply.mk header "foo.plate" "/data/foo.plate"
  | RemoteIndex.ReadRequest _ _ _ _ _ _ => 0%nat
  | RemoteIndex.MultiReadRequest _ _ _ _ _ _ =>
      RemoteIndex.mk_IndexMultiReadReply [] []
  | RemoteIndex.WriteRequest _ _ => 3%Z
  | RemoteIndex.MultiWriteUpdate _ => tt
  | RemoteIndex.WriteComplete _ _ _ => tt
  | RemoteIndex.ValidTiles _ _ _ _ _ _ _ _ _ => []
  | RemoteIndex.NumLevelsRequest _ => 5%Z
  | RemoteIndex.TransactionRequest _ _ _ => 7%Z
  | RemoteIndex.TransactionComplete _ _ _ => tt
  | RemoteIndex.TransactionFailed _ _ => tt
  | RemoteIndex.TransactionCursor _ => 6%Z
  end.

Definition unique (name : string) : string := name ++ "_1".

(** The client right after [RemoteIndex("pf://myexchange/foo.plate")]. *)
Definition fresh : RemoteIndex.world :=
  match RemoteIndex.open "index" unique service
                         "pf://myexchange/foo.plate" 0 with
  | Normal w => w
  | Throws _ => RemoteIndex.mk_world
                  (RemoteIndex.mk_members
                     (mk_AmqpRpcClient "" 0 "" "" "") 0 header "" "" [])
                  []
  end.

(** The same client after one [write_update]. *)
Definition one_pending : RemoteIndex.world :=
  snd (RemoteIndex.write_update service 11 12 fresh).

(** [n] tiles with their records. *)
Definition tiles (n : nat) : list (nat * nat) :=
  map (fun k => (k, k + 100)) (seq 0 n).

(** A region is never looked at by these runs. *)
Definition no_region (_ : unit) : Z := 0.

(** Twelve writes with a lock, a read and a new transaction between. *)
Definition session : list (@RemoteIndex.operation nat nat unit) :=
  RemoteIndex.do_write_request 1024
    :: map (fun u => RemoteIndex.do_write_update (fst u) (snd u)) (tiles 12)
    ++ [RemoteIndex.do_transaction_request "mosaic" 0;
        RemoteIndex.do_write_update 1 2;
        RemoteIndex.do_read_request 0 0 0 7 true;
        RemoteIndex.do_write_update 3 4].

(** A service like [service] that knows two versions of every tile. *)
Definition versions_service (h : list (@RemoteIndex.Request nat nat))
           (r : @RemoteIndex.Request nat nat) : RemoteIndex.Reply r :=
  match r return RemoteIndex.Reply r with
  | RemoteIndex.MultiReadRequest _ _ _ _ _ _ =>
      RemoteIndex.mk_IndexMultiReadReply [3%Z; 5%Z] [30; 50]
  | r' => service h r'
  end.

End Example.

(** ** The name of the output file in [grassfirealpha.cc] *)

Module Grassfirealpha.

(** [output], as [main] computes it from [input]: [_grass] goes in front
    of the last ['.'] of the name. *)
Definition output (input : string) : outcome string :=
  let pt_idx := Str.rfind "." input in
  match Str.substr_count 0 pt_idx input,
        Str.substr_count pt_idx (Str.size_sub (Str.size input) pt_idx) input
  with
  | Some front, Some back => Normal (front ++ "_grass" ++ back)
  | _, _ => Throws out_of_range
  end.

End Grassfirealpha.

(** ** Vocabulary of the statements about addresses *)

Definition no_dot (s : string) : Prop :=
  Str.count (Str.is_any_of ".") s = 0.

Definition no_slash (s : string) : Prop :=
  Str.count (Str.is_any_of "/") s = 0.

Definition no_colon (s : string) : Prop :=
  Str.count (Str.is_any_of ":") s = 0.

(** The number of ['/']-separated segments of a path: one more than its
    number of slashes. *)
Definition segments (path : string) : nat :=
  S (Str.count (Str.is_any_of "/") path).

(** A port number as it is written in a URL: in decimal, without sign
    or leading zeros. *)
Definition decimal (n : nat) : string :=
  DecimalString.NilEmpty.string_of_uint (Nat.to_uint n).

(** An integer as it is written in decimal, with a minus sign when it
    is negative. *)
Definition decimal_Z (z : Z) : string :=
  if (z <? 0)%Z then String "-" (decimal (Z.to_nat (- z)))
  else decimal (Z.to_nat z).

(** * Properties of the string primitives *)

Lemma find_zero_iff_prefix (pat s : string) :
  Str.find pat s = Some 0 <-> prefix pat s = true.
Proof.
  destruct s as [|c s]; cbn [Str.find].
  - destruct (prefix pat EmptyString); split; congruence.
  - destruct (prefix pat (String c s)); split; try congruence.
    destruct (Str.find pat s); cbn [option_map]; congruence.
Qed.

Lemma find_not_prefix (pat s : string) :
  prefix pat s = false -> Str.find pat s <> Some 0.
Proof.
  intros H F. apply find_zero_iff_prefix in F. congruence.
Qed.

Lemma prefix_append (p r : string) : prefix p (p ++ r) = true.
Proof.
  induction p as [|c p IH]; simpl.
  - now destruct r.
  - destruct (ascii_dec c c); [exact IH | congruence].
Qed.

Lemma prefix_split (p s : string) :
  prefix p s = true -> exists r, s = p ++ r.
Proof.
  revert s. induction p as [|c p IH]; intros s H.
  - exists s. reflexivity.
  - destruct s as [|d s]; simpl in H; [discriminate|].
    destruct (ascii_dec c d) as [->|]; [|discriminate].
    destruct (IH _ H) as [r ->]. exists r. reflexivity.
Qed.

Lemma substr_append (p r : string) :
  Str.substr (String.length p) (p ++ r) = Some r.
Proof.
  induction p as [|c p IH]; simpl; auto.
Qed.

Lemma split_not_nil (pred : ascii -> bool) (s : string) :
  Str.split pred s <> [].
Proof.
  destruct s as [|c s]; simpl; [discriminate|].
  destruct (pred c); [discriminate|].
  destruct (Str.split pred s); discriminate.
Qed.

Lemma split_length (pred : ascii -> bool) (s : string) :
  List.length (Str.split pred s) = S (Str.count pred s).
Proof.
  induction s as [|c s IH]; simpl; [reflexivity|].
  destruct (pred c); simpl.
  - now rewrite IH.
  - destruct (Str.split pred s) eqn:E; simpl in *; [discriminate | exact IH].
Qed.

Lemma split_no_separator (pred : ascii -> bool) (s : string) :
  Str.count pred s = 0 -> Str.split pred s = [s].
Proof.
  induction s as [|c s IH]; simpl; [reflexivity|].
  destruct (pred c); simpl; [discriminate|].
  intros H. now rewrite (IH H).
Qed.

Lemma split_at_separator (pred : ascii -> bool) (a b : string) (c : ascii) :
  Str.count pred a = 0 -> pred c = true ->
  Str.split pred (a ++ String c b) = a :: Str.split pred b.
Proof.
  intros Ha Hc. induction a as [|d a IH]; simpl.
  - now rewrite Hc.
  - simpl in Ha. destruct (pred d); [discriminate|].
    now rewrite (IH Ha).
Qed.

Lemma slash_is_separator : Str.is_any_of "/" "/"%char = true.
Proof. reflexivity. Qed.

Lemma colon_is_separator : Str.is_any_of ":" ":"%char = true.
Proof. reflexivity. Qed.

(** Two segments exactly when the path is [a/b] with no further slash. *)
Lemma split_two (a b : string) :
  no_slash a -> no_slash b ->
  Str.split (Str.is_any_of "/") (a ++ "/" ++ b) = [a; b].
Proof.
  intros Ha Hb. change ("/" ++ b) with (String "/" b).
  rewrite (split_at_separator _ a b "/" Ha slash_is_separator).
  now rewrite (split_no_separator _ b Hb).
Qed.

Lemma split_three (a b c : string) :
  no_slash a -> no_slash b -> no_slash c ->
  Str.split (Str.is_any_of "/") (a ++ "/" ++ b ++ "/" ++ c) = [a; b; c].
Proof.
  intros Ha Hb Hc.
  change ("/" ++ b ++ "/" ++ c) with (String "/" (b ++ "/" ++ c)).
  rewrite (split_at_separator _ a _ "/" Ha slash_is_separator).
  f_equal. now apply split_two.
Qed.

Lemma split_host_port (h p : string) :
  no_colon h -> no_colon p ->
  Str.split (Str.is_any_of ":") (h ++ ":" ++ p) = [h; p].
Proof.
  intros Hh Hp. change (":" ++ p) with (String ":" p).
  rewrite (split_at_separator _ h p ":" Hh colon_is_separator).
  now rewrite (split_no_separator _ p Hp).
Qed.

Lemma count_append (pred : ascii -> bool) (a b : string) :
  Str.count pred (a ++ b) = Str.count pred a + Str.count pred b.
Proof.
  induction a as [|c a IH]; simpl; [reflexivity|]. rewrite IH. lia.
Qed.

(** A digit is neither of the two separators. *)
Lemma digit_not_separator (c : ascii) (d : Z) :
  Str.digit_of c = Some d ->
  Str.is_any_of "/" c = false /\ Str.is_any_of ":" c = false.
Proof.
  destruct c as [[] [] [] [] [] [] [] []]; vm_compute; intros H;
    first [discriminate H | split; reflexivity].
Qed.

Lemma digits_no_separator (s : string) (acc v : Z) :
  Str.digits_value acc s = Some v -> no_slash s /\ no_colon s.
Proof.
  unfold no_slash, no_colon. revert acc.
  induction s as [|c s IH]; intros acc H;
    cbn [Str.count Str.digits_value] in *; [auto|].
  destruct (Str.digit_of c) as [d|] eqn:D; [|discriminate].
  destruct (digit_not_separator _ _ D) as [-> ->].
  now apply IH in H.
Qed.

Lemma cast_body_no_separator (neg : bool) (s : string) (n : Z) :
  Str.cast_body neg s = Some n -> no_slash s /\ no_colon s.
Proof.
  unfold Str.cast_body. destruct s as [|c s]; [discriminate|].
  destruct (Str.digits_value 0 (String c s)) eqn:E; [|discriminate].
  intros _. exact (digits_no_separator _ _ _ E).
Qed.

(** A string that [lexical_cast<int>] accepts holds no separator. *)
Lemma lexical_cast_no_separator (s : string) (n : Z) :
  Str.lexical_cast_int s = Some n -> no_slash s /\ no_colon s.
Proof.
  intros H. destruct s as [|c s]; [discriminate|].
  destruct c as [[] [] [] [] [] [] [] []];
    cbv beta iota delta [Str.lexical_cast_int] in H;
    apply cast_body_no_separator in H; destruct H as [H1 H2];
    split; first [exact H1 | exact H2].
Qed.

(** Reading the digits of a decimal numeral gives back its value. *)
Lemma digits_value_of_uint (d : Decimal.uint) (acc : nat) :
  Str.digits_value (Z.of_nat acc) (DecimalString.NilEmpty.string_of_uint d) =
    Some (Z.of_nat (Nat.of_uint_acc d acc)).
Proof.
  revert acc.
  induction d as [|d IH|d IH|d IH|d IH|d IH|d IH|d IH|d IH|d IH|d IH];
    intros acc; cbn [DecimalString.NilEmpty.string_of_uint Nat.of_uint_acc];
    [reflexivity| | | | | | | | | |];
    cbn [Str.digits_value];
    match goal with
    | |- context [Str.digit_of ?c] =>
        let v := eval vm_compute in (Str.digit_of c) in
        change (Str.digit_of c) with v
    end;
    cbv iota beta; rewrite <- IH; f_equal;
    rewrite Nat.tail_mul_spec; lia.
Qed.

Lemma to_uint_not_nil (n : nat) : Nat.to_uint n <> Decimal.Nil.
Proof.
  rewrite <- (DecimalNat.Unsigned.of_to n) at 1.
  rewrite DecimalNat.Unsigned.to_of. apply DecimalFacts.unorm_nonnil.
Qed.

(** [lexical_cast<int>] reads every number up to [INT_MAX] from its
    decimal spelling. *)
Lemma lexical_cast_decimal (n : nat) :
  (Z.of_nat n <= Str.INT_MAX)%Z ->
  Str.lexical_cast_int (decimal n) = Some (Z.of_nat n).
Proof.
  intros B. unfold decimal.
  pose proof (digits_value_of_uint (Nat.to_uint n) 0) as V.
  change (Nat.of_uint_acc (Nat.to_uint n) 0)
    with (Nat.of_uint (Nat.to_uint n)) in V.
  rewrite DecimalNat.Unsigned.of_to in V.
  pose proof (to_uint_not_nil n) as NN.
  assert (R : (Str.INT_MIN <=? Z.of_nat n)%Z && (Z.of_nat n <=? Str.INT_MAX)%Z
              = true).
  { apply andb_true_iff. split; apply Z.leb_le; [unfold Str.INT_MIN|]; lia. }
  destruct (Nat.to_uint n); [congruence| | | | | | | | | |];
    cbn [DecimalString.NilEmpty.string_of_uint] in *;
    cbv beta iota delta [Str.lexical_cast_int];
    unfold Str.cast_body; change (Z.of_nat 0) with 0%Z in V;
    rewrite V; cbv zeta; rewrite R; reflexivity.
Qed.

(** * The address parser *)

Lemma find_scheme (rest : string) : Str.find "pf://" ("pf://" ++ rest) = Some 0.
Proof. apply find_zero_iff_prefix, prefix_append. Qed.

Lemma substr_scheme (rest : string) :
  Str.substr 5 ("pf://" ++ rest) = Some rest.
Proof. exact (substr_append "pf://" rest). Qed.

(** [parse_url] never leaves through [substr]: position 5 is within any
    string that starts with the scheme. *)
Lemma parse_url_in_range (url : string) (out : url_fields) :
  snd (parse_url url out) <> Throws out_of_range.
Proof.
  unfold parse_url.
  destruct (Str.find "pf://" url) as [[|k]|] eqn:F; try discriminate.
  apply find_zero_iff_prefix, prefix_split in F. destruct F as [rest ->].
  rewrite substr_scheme.
  destruct (Str.split (Str.is_any_of "/") rest) as [|s0 [|s1 [|s2 [|s3 l]]]];
    try discriminate.
  destruct (Str.split (Str.is_any_of ":") s0) as [|h [|p0 [|q l]]];
    try discriminate.
  destruct (Str.lexical_cast_int p0); discriminate.
Qed.

(** C6. A URL that does not start with [pf://], or whose path after the
    scheme has a number of ['/']-separated segments other than 2 or 3,
    makes [parse_url] throw [ArgumentErr], and none of the four output
    references has been assigned when it does. *)
Theorem parse_url_rejects_malformed (url : string) (out : url_fields) :
  prefix "pf://" url = false \/
  (exists path, url = "pf://" ++ path /\
                segments path <> 2 /\ segments path <> 3) ->
  parse_url url out =
    (out, Throws (ArgumentErr (if prefix "pf://" url
                               then bad_segments_msg url
                               else malformed_url_msg url))).
Proof.
  intros [H | (path & -> & H2 & H3)]; unfold parse_url.
  - rewrite H.
    destruct (Str.find "pf://" url) as [[|k]|] eqn:F; try reflexivity.
    now apply find_not_prefix in H.
  - rewrite find_scheme, substr_scheme, prefix_append.
    unfold segments in H2, H3. rewrite <- split_length in H2, H3.
    destruct (Str.split (Str.is_any_of "/") path)
      as [|s0 [|s1 [|s2 [|s3 l]]]]; simpl in H2, H3;
      try reflexivity; congruence.
Qed.

Lemma parse_url_rejects_malformed_witness :
  parse_url "ftp://a/b" (mk_url_fields "h" 1 "e" "n") =
    (mk_url_fields "h" 1 "e" "n",
     Throws (ArgumentErr (malformed_url_msg "ftp://a/b"))) /\
  parse_url "pf://a/b/c/d" (mk_url_fields "h" 1 "e" "n") =
    (mk_url_fields "h" 1 "e" "n",
     Throws (ArgumentErr (bad_segments_msg "pf://a/b/c/d"))).
Proof.
  split.
  - apply (parse_url_rejects_malformed "ftp://a/b"). left. reflexivity.
  - apply (parse_url_rejects_malformed "pf://a/b/c/d"). right.
    exists "a/b/c/d". repeat split; discriminate.
Defined.

(** C5. A two-segment URL [pf://<routing_key>/<platefile_name>] gives
    host [localhost] and port 5672 with the two segments as routing key
    and platefile name; a three-segment URL gives its host, the routing
    key and platefile name from the second and third segments, and port
    5672 when the host has no [:<port>], or the value of the port when it
    has one that [lexical_cast<int>] accepts, as it does every number up
    to [INT_MAX] written in decimal. *)
Theorem parse_url_fields (out : url_fields) (routing_key name : string) :
  no_slash routing_key -> no_slash name ->
  parse_url ("pf://" ++ routing_key ++ "/" ++ name) out =
    (mk_url_fields "localhost" 5672 routing_key name, Normal tt) /\
  (forall host : string,
      no_slash host -> no_colon host ->
      parse_url ("pf://" ++ host ++ "/" ++ routing_key ++ "/" ++ name) out =
        (mk_url_fields host 5672 routing_key name, Normal tt) /\
      (forall (p : string) (n : Z),
          Str.lexical_cast_int p = Some n ->
          parse_url ("pf://" ++ (host ++ ":" ++ p) ++ "/" ++
                     routing_key ++ "/" ++ name) out =
            (mk_url_fields host n routing_key name, Normal tt)) /\
      (forall n : nat,
          (Z.of_nat n <= Str.INT_MAX)%Z ->
          parse_url ("pf://" ++ (host ++ ":" ++ decimal n) ++ "/" ++
                     routing_key ++ "/" ++ name) out =
            (mk_url_fields host (Z.of_nat n) routing_key name, Normal tt))).
Proof.
  intros Hr Hn. split.
  - unfold parse_url.
    rewrite find_scheme, substr_scheme, (split_two _ _ Hr Hn). reflexivity.
  - intros host Hs Hc.
    assert (G : forall (p : string) (n : Z),
               Str.lexical_cast_int p = Some n ->
               parse_url ("pf://" ++ (host ++ ":" ++ p) ++ "/" ++
                          routing_key ++ "/" ++ name) out =
                 (mk_url_fields host n routing_key name, Normal tt)).
    { intros p n Hp.
      destruct (lexical_cast_no_separator _ _ Hp) as [Hps Hpc].
      assert (Hhp : no_slash (host ++ ":" ++ p)).
      { unfold no_slash in *. rewrite !count_append, Hs, Hps. reflexivity. }
      unfold parse_url.
      rewrite find_scheme, substr_scheme, (split_three _ _ _ Hhp Hr Hn).
      rewrite (split_host_port _ _ Hc Hpc), Hp. reflexivity. }
    split; [|split; [exact G|]].
    + unfold parse_url.
      rewrite find_scheme, substr_scheme, (split_three _ _ _ Hs Hr Hn).
      rewrite (split_no_separator _ host Hc). reflexivity.
    + intros n B. apply G, lexical_cast_decimal, B.
Qed.

Lemma parse_url_fields_witness :
  parse_url "pf://myexchange/foo.plate" (mk_url_fields "" 0 "" "") =
    (mk_url_fields "localhost" 5672 "myexchange" "foo.plate", Normal tt) /\
  parse_url "pf://1.2.3.4/myexchange/foo.plate" (mk_url_fields "" 0 "" "") =
    (mk_url_fields "1.2.3.4" 5672 "myexchange" "foo.plate", Normal tt) /\
  parse_url "pf://1.2.3.4:9999/myexchange/foo.plate"
            (mk_url_fields "" 0 "" "") =
    (mk_url_fields "1.2.3.4" 9999 "myexchange" "foo.plate", Normal tt) /\
  parse_url "pf://1.2.3.4:443/myexchange/foo.plate"
            (mk_url_fields "" 0 "" "") =
    (mk_url_fields "1.2.3.4" 443 "myexchange" "foo.plate", Normal tt).
Proof.
  destruct (parse_url_fields (mk_url_fields "" 0 "" "")
              "myexchange" "foo.plate" eq_refl eq_refl) as [H2 H3].
  destruct (H3 "1.2.3.4" eq_refl eq_refl) as (Hd & Hp & Hn).
  split; [exact H2 | split; [exact Hd | split]].
  - exact (Hp "9999" 9999%Z eq_refl).
  - apply (Hn 443). vm_compute. discriminate.
Defined.

(** C3, as the code has it.  In a three-segment URL
    [pf://<host>:<port>/<routing_key>/<name>] a port that
    [lexical_cast<int>] does not accept makes [parse_url] fail with the
    cast's own [bad_lexical_cast], once the routing key, the platefile
    name and the host have been assigned; a first segment with more than
    one [':'] makes it throw [ArgumentErr]. *)
Theorem parse_url_rejects_bad_host_port (out : url_fields)
        (routing_key name : string) :
  no_slash routing_key -> no_slash name ->
  (forall host p : string,
      no_slash host -> no_colon host -> no_slash p -> no_colon p ->
      Str.lexical_cast_int p = None ->
      parse_url ("pf://" ++ (host ++ ":" ++ p) ++ "/" ++
                 routing_key ++ "/" ++ name) out =
        (set_hostname host
           (set_platefile_name name (set_exchange routing_key out)),
         Throws bad_lexical_cast)) /\
  (forall host_port : string,
      no_slash host_port ->
      2 <= Str.count (Str.is_any_of ":") host_port ->
      let url := "pf://" ++ host_port ++ "/" ++ routing_key ++ "/" ++ name in
      parse_url url out =
        (set_platefile_name name (set_exchange routing_key out),
         Throws (ArgumentErr (bad_host_port_msg url)))).
Proof.
  intros Hr Hn. split.
  - intros host p Hs Hc Hps Hpc Hp.
    assert (Hhp : no_slash (host ++ ":" ++ p)).
    { unfold no_slash in *. rewrite !count_append, Hs, Hps. reflexivity. }
    unfold parse_url.
    rewrite find_scheme, substr_scheme, (split_three _ _ _ Hhp Hr Hn).
    rewrite (split_host_port _ _ Hc Hpc), Hp. reflexivity.
  - intros host_port Hs Hc url. subst url. unfold parse_url.
    rewrite find_scheme, substr_scheme, (split_three _ _ _ Hs Hr Hn).
    pose proof (split_length (Str.is_any_of ":") host_port) as L.
    destruct (Str.split (Str.is_any_of ":") host_port)
      as [|h [|p0 [|q l]]]; cbn [List.length] in L; try reflexivity; lia.
Qed.

Lemma parse_url_rejects_bad_host_port_witness :
  parse_url "pf://1.2.3.4:amqp/myexchange/foo.plate"
            (mk_url_fields "" 0 "" "") =
    (mk_url_fields "1.2.3.4" 0 "myexchange" "foo.plate",
     Throws bad_lexical_cast) /\
  parse_url "pf://::1:5672/myexchange/foo.plate" (mk_url_fields "" 0 "" "") =
    (mk_url_fields "" 0 "myexchange" "foo.plate",
     Throws (ArgumentErr
               (bad_host_port_msg "pf://::1:5672/myexchange/foo.plate"))).
Proof.
  destruct (parse_url_rejects_bad_host_port (mk_url_fields "" 0 "" "")
              "myexchange" "foo.plate" eq_refl eq_refl) as [Hp Hc].
  split.
  - exact (Hp "1.2.3.4" "amqp" eq_refl eq_refl eq_refl eq_refl eq_refl).
  - apply (Hc "::1:5672" eq_refl). simpl. lia.
Defined.

(** * The client *)

Section ClientProperties.

Context {TileHeader IndexRecord BBox2i : Type}.
Variables bbox_min_x bbox_min_y bbox_width bbox_height : BBox2i -> Z.
Variable INDEX_EXCHANGE : string.
Variable UniqueQueueName : string -> string.
Variable service :
  list (@RemoteIndex.Request TileHeader IndexRecord) ->
  forall r : @RemoteIndex.Request TileHeader IndexRecord,
    RemoteIndex.Reply r.

Local Open Scope list_scope.

Local Abbreviation world := (@RemoteIndex.world TileHeader IndexRecord).
Local Abbreviation pending := RemoteIndex.pending.
Local Abbreviation wire := RemoteIndex.wire.
Local Abbreviation self := RemoteIndex.self.
Local Abbreviation threshold := RemoteIndex.max_pending_write_updates.
Local Abbreviation after := RemoteIndex.after.

Lemma with_write_queue_same (w : world) :
  RemoteIndex.mk_world (RemoteIndex.with_write_queue (pending w) (self w))
                       (wire w) = w.
Proof. destruct w as [[c i h s f q] t]. reflexivity. Qed.

Lemma after_nothing (w : world) : after w (pending w) [] = w.
Proof.
  unfold RemoteIndex.after. rewrite app_nil_r. apply with_write_queue_same.
Qed.

(** The loop of the flush moves the whole queue, front first, behind
    what the request already holds. *)
Lemma drain_all (queue acc : list (@RemoteIndex.IndexWriteUpdate
                                     TileHeader IndexRecord)) :
  RemoteIndex.drain queue acc = ([], acc ++ queue).
Proof.
  revert acc. induction queue as [|u queue IH]; intros acc; simpl.
  - now rewrite app_nil_r.
  - rewrite IH, <- app_assoc. reflexivity.
Qed.

(** A flush empties the queue and sends one batch with what it held. *)
Lemma flush_write_queue_spec (w : world) :
  RemoteIndex.flush_write_queue service w =
    (tt, after w [] [RemoteIndex.MultiWriteUpdate (pending w)]).
Proof.
  unfold RemoteIndex.flush_write_queue, RemoteIndex.bind, RemoteIndex.this.
  rewrite drain_all. reflexivity.
Qed.

Lemma after_after (w : world) q1 s1 q2 s2 :
  after (after w q1 s1) q2 s2 = after w q2 (s1 ++ s2).
Proof. unfold RemoteIndex.after. simpl. now rewrite app_assoc. Qed.

Lemma pending_after (w : world) q s : pending (after w q s) = q.
Proof. reflexivity. Qed.

Lemma wire_after (w : world) q s : wire (after w q s) = wire w ++ s.
Proof. reflexivity. Qed.

Lemma platefile_id_after (w : world) q s :
  RemoteIndex.m_platefile_id (self (after w q s)) =
    RemoteIndex.m_platefile_id (self w).
Proof. reflexivity. Qed.

(** One [write_update]: the new entry goes behind the pending ones, and
    the queue is flushed when that makes ten or more. *)
Lemma write_update_spec (w : world) (h : TileHeader) (r : IndexRecord) :
  let queue :=
    pending w ++
    [RemoteIndex.mk_IndexWriteUpdate
       (RemoteIndex.m_platefile_id (self w)) h r] in
  RemoteIndex.write_update service h r w =
    (tt, if Nat.leb threshold (List.length queue)
         then after w [] [RemoteIndex.MultiWriteUpdate queue]
         else after w queue []).
Proof.
  intros queue.
  unfold RemoteIndex.write_update, RemoteIndex.bind, RemoteIndex.this,
    RemoteIndex.set_write_queue.
  cbn [RemoteIndex.self RemoteIndex.m_write_queue
       RemoteIndex.with_write_queue].
  subst queue. unfold RemoteIndex.pending.
  destruct (Nat.leb _ _).
  - rewrite flush_write_queue_spec. unfold RemoteIndex.after. cbn.
    reflexivity.
  - unfold RemoteIndex.ret, RemoteIndex.after. now rewrite app_nil_r.
Qed.

(** Unfolds the steps of an operation down to its flush, which
    [flush_write_queue_spec] then replaces. *)
Ltac run_operation :=
  unfold RemoteIndex.read_request, RemoteIndex.multi_read_request,
    RemoteIndex.valid_tiles, RemoteIndex.num_levels,
    RemoteIndex.write_request, RemoteIndex.write_complete,
    RemoteIndex.transaction_request, RemoteIndex.transaction_complete,
    RemoteIndex.transaction_failed, RemoteIndex.transaction_cursor,
    RemoteIndex.version, RemoteIndex.platefile_name,
    RemoteIndex.index_header, RemoteIndex.tile_size,
    RemoteIndex.tile_filetype, RemoteIndex.pixel_format,
    RemoteIndex.channel_type, RemoteIndex.destroy, RemoteIndex.discard,
    RemoteIndex.bind;
  rewrite ?flush_write_queue_spec;
  unfold RemoteIndex.this, RemoteIndex.call, RemoteIndex.ret,
    RemoteIndex.after;
  cbn [fst snd RemoteIndex.self RemoteIndex.wire RemoteIndex.m_platefile_id
       RemoteIndex.with_write_queue];
  rewrite <- ?app_assoc; cbn [app].

(** C1, as the code has it.  A flush of an empty queue is not silent:
    it sends one [MultiWriteUpdate] that carries no update, and leaves
    the client as it was. *)
Theorem flush_of_empty_queue_sends_empty_batch (w : world) :
  pending w = [] ->
  RemoteIndex.flush_write_queue service w =
    (tt, RemoteIndex.mk_world
           (self w) (wire w ++ [RemoteIndex.MultiWriteUpdate []])).
Proof.
  intros E. rewrite flush_write_queue_spec. unfold RemoteIndex.after.
  rewrite E. f_equal. f_equal.
  destruct w as [[c i h s f q] t]. unfold RemoteIndex.pending in E.
  simpl in *. now subst q.
Qed.

(** C2, as the code has it.  The seven operations that start with a
    flush send one batch with the pending updates and then their own
    request, and leave the queue empty; [transaction_request] sends its
    own request only and leaves the queue as it was. *)
Theorem flush_precedes_own_request (w : world) :
  let id := RemoteIndex.m_platefile_id (self w) in
  let batch := RemoteIndex.MultiWriteUpdate (pending w) in
  (forall col row level transaction_id exact,
      snd (RemoteIndex.read_request service col row level
                                    transaction_id exact w) =
        after w [] [batch; RemoteIndex.ReadRequest
                             id col row level transaction_id exact]) /\
  (forall col row level begin_id end_id,
      snd (RemoteIndex.multi_read_request service col row level
                                          begin_id end_id w) =
        after w [] [batch; RemoteIndex.MultiReadRequest
                             id col row level begin_id end_id]) /\
  (forall level region begin_id end_id min_num_matches,
      snd (RemoteIndex.valid_tiles bbox_min_x bbox_min_y bbox_width
             bbox_height service level region begin_id end_id
             min_num_matches w) =
        after w [] [batch; RemoteIndex.ValidTiles id level
                             (bbox_min_x region) (bbox_min_y region)
                             (bbox_width region) (bbox_height region)
                             begin_id end_id min_num_matches]) /\
  snd (RemoteIndex.num_levels service w) =
    after w [] [batch; RemoteIndex.NumLevelsRequest id] /\
  (forall blob_id blob_offset,
      snd (RemoteIndex.write_complete service blob_id blob_offset w) =
        after w [] [batch; RemoteIndex.WriteComplete
                             id blob_id blob_offset]) /\
  (forall transaction_id update_read_cursor,
      snd (RemoteIndex.transaction_complete service transaction_id
                                            update_read_cursor w) =
        after w [] [batch; RemoteIndex.TransactionComplete
                             id transaction_id update_read_cursor]) /\
  (forall transaction_id,
      snd (RemoteIndex.transaction_failed service transaction_id w) =
        after w [] [batch; RemoteIndex.TransactionFailed
                             id transaction_id]) /\
  (forall description override,
      snd (RemoteIndex.transaction_request service description
                                           override w) =
        RemoteIndex.mk_world
          (self w)
          (wire w ++ [RemoteIndex.TransactionRequest
                        id description override])).
Proof.
  intros id batch. subst id batch.
  repeat split; intros; run_operation; reflexivity.
Qed.

Lemma write_request_spec (w : world) (size : Z) :
  RemoteIndex.write_request service size w =
    (service (wire w)
       (RemoteIndex.WriteRequest (RemoteIndex.m_platefile_id (self w)) size),
     RemoteIndex.mk_world
       (self w)
       (wire w ++ [RemoteIndex.WriteRequest
                     (RemoteIndex.m_platefile_id (self w)) size])).
Proof. reflexivity. Qed.

(** C7. [write_request] sends its [WriteRequest] and nothing else,
    returns the [blob_id] of the reply, and leaves the client, its
    queue included, as it was; so any number of [write_request] calls in
    a row puts only their own requests on the wire. *)
Theorem write_request_does_not_flush (w : world) :
  let id := RemoteIndex.m_platefile_id (self w) in
  (forall size : Z,
      RemoteIndex.write_request service size w =
        (service (wire w) (RemoteIndex.WriteRequest id size),
         RemoteIndex.mk_world
           (self w) (wire w ++ [RemoteIndex.WriteRequest id size]))) /\
  (forall sizes : list Z,
      RemoteIndex.perform_all
        bbox_min_x bbox_min_y bbox_width bbox_height service
        (map RemoteIndex.do_write_request sizes) w =
        RemoteIndex.mk_world
          (self w) (wire w ++ map (RemoteIndex.WriteRequest id) sizes)).
Proof.
  intros id. subst id. split; [intros size; apply write_request_spec|].
  intros sizes. revert w.
  induction sizes as [|size sizes IH]; intros w.
  - cbn. rewrite app_nil_r. now destruct w.
  - cbn [map RemoteIndex.perform_all RemoteIndex.perform].
    unfold RemoteIndex.discard, RemoteIndex.bind.
    rewrite write_request_spec. cbn [snd RemoteIndex.ret].
    rewrite IH. cbn [RemoteIndex.self RemoteIndex.wire].
    now rewrite <- app_assoc.
Qed.

(** C8. The destructor sends one last batch that carries every pending
    update, in order: none of them is dropped. *)
Theorem destructor_flushes_pending (w : world) :
  RemoteIndex.destroy service w =
    (tt, after w [] [RemoteIndex.MultiWriteUpdate (pending w)]) /\
  (forall u, In u (pending w) ->
     exists batch,
       In (RemoteIndex.MultiWriteUpdate batch)
          (wire (snd (RemoteIndex.destroy service w))) /\
       In u batch).
Proof.
  unfold RemoteIndex.destroy. rewrite flush_write_queue_spec.
  split; [reflexivity|]. intros u Hu. exists (pending w).
  split; [|exact Hu]. cbn [snd]. rewrite wire_after.
  apply in_or_app. right. left. reflexivity.
Qed.

(** The entries that [write_update] makes of a list of tiles. *)
Lemma write_updates_below_threshold
      (us : list (TileHeader * IndexRecord)) (w : world) :
  List.length (pending w) + List.length us < threshold ->
  RemoteIndex.write_updates_of service us w =
    after w (pending w ++ RemoteIndex.entries_of w us) [].
Proof.
  revert w. induction us as [|[h r] us IH]; intros w L.
  - cbn. rewrite app_nil_r. symmetry. apply after_nothing.
  - cbn [RemoteIndex.write_updates_of RemoteIndex.entries_of map fst snd].
    pose proof (write_update_spec w h r) as W. cbv zeta in W.
    rewrite W. clear W. cbn [snd].
    cbn [List.length] in L.
    replace (Nat.leb threshold _) with false.
    2:{ symmetry. apply Nat.leb_gt. rewrite length_app. cbn. lia. }
    rewrite IH.
    2:{ rewrite pending_after, length_app. cbn. lia. }
    rewrite after_after, pending_after. unfold RemoteIndex.entries_of.
    rewrite platefile_id_after, <- app_assoc. reflexivity.
Qed.

(** C4. Starting with fewer than ten updates pending, a run of
    [write_update] calls that keeps the queue below ten sends nothing
    and only lengthens the queue; a run that brings it to exactly ten
    sends exactly one batch, with the ten entries in the order they were
    queued, and leaves the queue empty. *)
Theorem write_updates_batching
        (us : list (TileHeader * IndexRecord)) (w : world) :
  List.length (pending w) < threshold ->
  (List.length (pending w) + List.length us < threshold ->
   RemoteIndex.write_updates_of service us w =
     after w (pending w ++ RemoteIndex.entries_of w us) []) /\
  (List.length (pending w) + List.length us = threshold ->
   RemoteIndex.write_updates_of service us w =
     after w [] [RemoteIndex.MultiWriteUpdate
                   (pending w ++ RemoteIndex.entries_of w us)]).
Proof.
  intros B. split; [apply write_updates_below_threshold|].
  revert w B. induction us as [|[h r] us IH]; intros w B L.
  - cbn in L. lia.
  - cbn [RemoteIndex.write_updates_of RemoteIndex.entries_of map fst snd].
    pose proof (write_update_spec w h r) as W. cbv zeta in W.
    rewrite W. clear W. cbn [snd]. cbn [List.length] in L.
    destruct us as [|u us].
    + replace (Nat.leb threshold _) with true.
      2:{ symmetry. apply Nat.leb_le. rewrite length_app. cbn in *. lia. }
      reflexivity.
    + replace (Nat.leb threshold _) with false.
      2:{ symmetry. apply Nat.leb_gt. rewrite length_app. cbn in *. lia. }
      rewrite IH.
      * rewrite after_after, pending_after. unfold RemoteIndex.entries_of.
        rewrite platefile_id_after, <- app_assoc. reflexivity.
      * rewrite pending_after, length_app. cbn in *. lia.
      * rewrite pending_after, length_app. cbn in *. lia.
Qed.

(** C9. Whatever [platefile_id] the caller's header carries, the
    create constructor, once the URL is parsed, sends one
    [CreateRequest] whose header is the caller's with [platefile_id]
    set to 0. *)
Theorem create_request_has_zero_platefile_id
        (url : string) (index_header_info : IndexHeader.t)
        (indeterminate : Z) (a : url_fields) :
  parse_url url (RemoteIndex.locals indeterminate) = (a, Normal tt) ->
  exists (w : world) (sent : IndexHeader.t),
    RemoteIndex.create INDEX_EXCHANGE UniqueQueueName service
                       url index_header_info indeterminate = Normal w /\
    wire w = [RemoteIndex.CreateRequest (platefile_name a) sent] /\
    sent = IndexHeader.set_platefile_id 0 index_header_info /\
    IndexHeader.platefile_id sent = 0%Z.
Proof.
  intros P. unfold RemoteIndex.create. rewrite P.
  eexists. eexists. split; [reflexivity|].
  split; [reflexivity|]. split; reflexivity.
Qed.

(** Both constructors leave the queue empty, and a constructor that
    throws leaves no client at all. *)
Lemma constructed_queue_empty (w : world) :
  RemoteIndex.constructed INDEX_EXCHANGE UniqueQueueName service w ->
  pending w = [].
Proof.
  intros [(url & i & H) | (url & hdr & i & H)];
    [unfold RemoteIndex.open in H | unfold RemoteIndex.create in H];
    destruct (parse_url url (RemoteIndex.locals i)) as [a [[]|e]];
    inversion H; reflexivity.
Qed.

(** No public operation takes the queue from below ten to ten or more. *)
Lemma perform_keeps_bound (o : RemoteIndex.operation) (w : world) :
  List.length (pending w) < threshold ->
  List.length
    (pending (snd (RemoteIndex.perform bbox_min_x bbox_min_y bbox_width
                     bbox_height service o w))) < threshold.
Proof.
  intros B.
  destruct o; cbn [RemoteIndex.perform];
    try (run_operation; first [exact B | cbn; unfold threshold; lia]).
  pose proof (write_update_spec w header record) as W. cbv zeta in W.
  rewrite W. cbn [snd].
  destruct (Nat.leb threshold _) eqn:E.
  - cbn. unfold threshold. lia.
  - apply Nat.leb_gt in E. rewrite pending_after. exact E.
Qed.

(** C10. From construction on, after every public operation the queue
    holds at most nine entries. *)
Theorem queue_stays_below_threshold
        (os : list RemoteIndex.operation) (w : world) :
  RemoteIndex.constructed INDEX_EXCHANGE UniqueQueueName service w ->
  List.length
    (pending (RemoteIndex.perform_all bbox_min_x bbox_min_y bbox_width
                bbox_height service os w)) <= 9.
Proof.
  intros C. apply constructed_queue_empty in C.
  assert (B : List.length (pending w) < threshold)
    by (rewrite C; cbn; unfold threshold; lia).
  clear C. apply Nat.lt_succ_r. change (S 9) with threshold.
  revert w B. induction os as [|o os IH]; intros w B; [exact B|].
  cbn [RemoteIndex.perform_all]. apply IH, perform_keeps_bound, B.
Qed.

End ClientProperties.

(** * Concrete runs *)

(** C3, as stated, fails on a port that is not a number: what leaves
    [parse_url] is not the [ArgumentErr] that reports the other malformed
    addresses. *)
Lemma non_integer_port_is_not_an_ArgumentErr :
  snd (parse_url "pf://1.2.3.4:amqp/myexchange/foo.plate"
                 (mk_url_fields "" 0 "" "")) = Throws bad_lexical_cast /\
  ~ (exists what : string,
        snd (parse_url "pf://1.2.3.4:amqp/myexchange/foo.plate"
                       (mk_url_fields "" 0 "" "")) =
          Throws (ArgumentErr what)).
Proof.
  split; [reflexivity|]. intros [what H]. vm_compute in H. discriminate H.
Qed.

(** C1, as stated, fails on a freshly opened client: its queue is empty,
    and a flush still puts a request on the wire. *)
Lemma flush_of_empty_queue_is_not_silent :
  RemoteIndex.pending Example.fresh = [] /\
  ~ RemoteIndex.silent
      Example.fresh
      (snd (RemoteIndex.flush_write_queue Example.service Example.fresh)).
Proof.
  split; [reflexivity|]. unfold RemoteIndex.silent. vm_compute.
  discriminate.
Qed.

Lemma flush_of_empty_queue_sends_empty_batch_witness :
  RemoteIndex.flush_write_queue Example.service Example.fresh =
    (tt, RemoteIndex.mk_world
           (RemoteIndex.self Example.fresh)
           [RemoteIndex.OpenRequest "foo.plate";
            RemoteIndex.MultiWriteUpdate []]).
Proof.
  exact (flush_of_empty_queue_sends_empty_batch
           Example.service Example.fresh eq_refl).
Defined.

(** C2, as stated, fails for [transaction_request]: with one update
    pending, no batch precedes its request. *)
Lemma transaction_request_is_not_preceded_by_flush :
  RemoteIndex.pending Example.one_pending <> [] /\
  ~ RemoteIndex.flushed_before_own
      Example.one_pending
      (snd (RemoteIndex.transaction_request
              Example.service "mosaic" 0 Example.one_pending)).
Proof.
  split; [discriminate|]. intros [own H]. vm_compute in H. discriminate H.
Qed.

Lemma write_updates_batching_witness :
  RemoteIndex.write_updates_of Example.service (Example.tiles 9)
                               Example.fresh =
    RemoteIndex.after
      Example.fresh
      (RemoteIndex.entries_of Example.fresh (Example.tiles 9)) [] /\
  RemoteIndex.write_updates_of Example.service (Example.tiles 10)
                               Example.fresh =
    RemoteIndex.after
      Example.fresh []
      [RemoteIndex.MultiWriteUpdate
         (RemoteIndex.entries_of Example.fresh (Example.tiles 10))].
Proof.
  split.
  - apply (write_updates_batching Example.service (Example.tiles 9)
                                  Example.fresh); cbv; lia.
  - apply (write_updates_batching Example.service (Example.tiles 10)
                                  Example.fresh); cbv; lia.
Defined.

Lemma create_request_has_zero_platefile_id_witness :
  exists (w : RemoteIndex.world) (sent : IndexHeader.t),
    RemoteIndex.create "index" Example.unique Example.service
                       "pf://myexchange/foo.plate"
                       (IndexHeader.mk 7 1 256 "png" 3 1) 0 = Normal w /\
    RemoteIndex.wire w = [RemoteIndex.CreateRequest "foo.plate" sent] /\
    sent = IndexHeader.mk 0 1 256 "png" 3 1 /\
    IndexHeader.platefile_id sent = 0%Z.
Proof.
  exact (create_request_has_zero_platefile_id
           "index" Example.unique Example.service
           "pf://myexchange/foo.plate" (IndexHeader.mk 7 1 256 "png" 3 1) 0
           (mk_url_fields "localhost" 5672 "myexchange" "foo.plate")
           eq_refl).
Defined.

Lemma queue_stays_below_threshold_witness :
  List.length
    (RemoteIndex.pending
       (RemoteIndex.perform_all Example.no_region Example.no_region
          Example.no_region Example.no_region Example.service
          Example.session Example.fresh)) <= 9.
Proof.
  apply (queue_stays_below_threshold
           Example.no_region Example.no_region Example.no_region
           Example.no_region "index" Example.unique Example.service).
  left. exists "pf://myexchange/foo.plate", 0%Z. reflexivity.
Defined.

Lemma destructor_flushes_pending_witness :
  RemoteIndex.destroy Example.service Example.one_pending =
    (tt, RemoteIndex.after
           Example.one_pending []
           [RemoteIndex.MultiWriteUpdate
              [RemoteIndex.mk_IndexWriteUpdate 42 11 12]]) /\
  exists batch,
    In (RemoteIndex.MultiWriteUpdate batch)
       (RemoteIndex.wire
          (snd (RemoteIndex.destroy Example.service Example.one_pending))) /\
    In (RemoteIndex.mk_IndexWriteUpdate 42 11 12) batch.
Proof.
  destruct (destructor_flushes_pending Example.service Example.one_pending)
    as [E K].
  split; [exact E|]. apply K. left. reflexivity.
Defined.

(** * Further properties of the address parser *)

Lemma is_any_of_single (d c : ascii) :
  Str.is_any_of (String d EmptyString) c = true -> c = d.
Proof.
  cbn [Str.is_any_of]. rewrite orb_false_r. apply Ascii.eqb_eq.
Qed.

(** Joining the tokens of a split with the separator gives the string
    back, and no token holds the separator. *)
Lemma split_join (d : ascii) (s : string) :
  String.concat (String d EmptyString)
                (Str.split (Str.is_any_of (String d EmptyString)) s) = s /\
  Forall (fun t => Str.count (Str.is_any_of (String d EmptyString)) t = 0)
         (Str.split (Str.is_any_of (String d EmptyString)) s).
Proof.
  induction s as [|c s [IHj IHf]]; cbn [Str.split].
  - split; [reflexivity | repeat constructor].
  - pose proof (split_not_nil (Str.is_any_of (String d EmptyString)) s) as NN.
    destruct (Str.split (Str.is_any_of (String d EmptyString)) s)
      as [|t ts]; [congruence|]. clear NN.
    destruct (Str.is_any_of (String d EmptyString) c) eqn:E.
    + apply is_any_of_single in E. subst c. split.
      * rewrite <- IHj. reflexivity.
      * constructor; [reflexivity | exact IHf].
    + split.
      * destruct ts as [|t' ts]; rewrite <- IHj; reflexivity.
      * inversion IHf as [|? ? Ht Hts]; subst.
        constructor; [|exact Hts]. cbn [Str.count]. now rewrite E, Ht.
Qed.

Lemma split_two_inv (s a b : string) :
  Str.split (Str.is_any_of "/") s = [a; b] ->
  s = a ++ "/" ++ b /\ no_slash a /\ no_slash b.
Proof.
  intros E. destruct (split_join "/" s) as [J F]. rewrite E in J, F.
  split; [symmetry; exact J|].
  inversion F as [|? ? Ha F']. inversion F' as [|? ? Hb _].
  split; assumption.
Qed.

Lemma split_three_inv (s a b c : string) :
  Str.split (Str.is_any_of "/") s = [a; b; c] ->
  s = a ++ "/" ++ b ++ "/" ++ c /\ no_slash a /\ no_slash b /\ no_slash c.
Proof.
  intros E. destruct (split_join "/" s) as [J F]. rewrite E in J, F.
  split; [symmetry; exact J|].
  inversion F as [|? ? Ha F']. inversion F' as [|? ? Hb F''].
  inversion F'' as [|? ? Hc _]. repeat split; assumption.
Qed.

Lemma split_colon_inv (s : string) (l : list string) :
  Str.split (Str.is_any_of ":") s = l ->
  s = String.concat ":" l /\ Forall no_colon l.
Proof.
  intros E. destruct (split_join ":" s) as [J F]. rewrite E in J, F.
  split; [symmetry; exact J | exact F].
Qed.

Lemma cast_body_in_range (neg : bool) (s : string) (n : Z) :
  Str.cast_body neg s = Some n -> (Str.INT_MIN <= n <= Str.INT_MAX)%Z.
Proof.
  unfold Str.cast_body. destruct s as [|c s]; [discriminate|].
  destruct (Str.digits_value 0 (String c s)) as [m|]; [|discriminate].
  cbv zeta.
  destruct ((Str.INT_MIN <=? (if neg then (- m)%Z else m))%Z &&
            ((if neg then (- m)%Z else m) <=? Str.INT_MAX)%Z) eqn:R;
    [|discriminate].
  intros H. inversion H; subst. apply andb_true_iff in R.
  destruct R as [R1 R2]. apply Z.leb_le in R1, R2. split; assumption.
Qed.

Lemma lexical_cast_in_range (s : string) (n : Z) :
  Str.lexical_cast_int s = Some n -> (Str.INT_MIN <= n <= Str.INT_MAX)%Z.
Proof.
  intros H. destruct s as [|c s]; [discriminate|].
  destruct c as [[] [] [] [] [] [] [] []];
    cbv beta iota delta [Str.lexical_cast_int] in H;
    exact (cast_body_in_range _ _ _ H).
Qed.

(** What [parse_url] does on a three-segment URL whose first segment is
    [<host>:<port>]. *)
Lemma parse_url_host_port (out : url_fields) (host p routing_key name : string) :
  no_slash host -> no_colon host -> no_slash p -> no_colon p ->
  no_slash routing_key -> no_slash name ->
  parse_url ("pf://" ++ (host ++ ":" ++ p) ++ "/" ++
             routing_key ++ "/" ++ name) out =
    match Str.lexical_cast_int p with
    | Some n => (mk_url_fields host n routing_key name, Normal tt)
    | None => (set_hostname host
                 (set_platefile_name name (set_exchange routing_key out)),
               Throws bad_lexical_cast)
    end.
Proof.
  intros Hs Hc Hps Hpc Hr Hn.
  assert (Hhp : no_slash (host ++ ":" ++ p)).
  { unfold no_slash in *. rewrite !count_append, Hs, Hps. reflexivity. }
  unfold parse_url.
  rewrite find_scheme, substr_scheme, (split_three _ _ _ Hhp Hr Hn).
  rewrite (split_host_port _ _ Hc Hpc).
  destruct (Str.lexical_cast_int p); reflexivity.
Qed.

(** X1. Whatever the URL, [parse_url] leaves either normally, or with
    the cast's [bad_lexical_cast], or with an [ArgumentErr] whose message
    is one of its three texts followed by the URL; the [substr] in it
    never throws. *)
Theorem parse_url_exceptions (url : string) (out : url_fields) (e : exn) :
  snd (parse_url url out) = Throws e ->
  e = bad_lexical_cast \/
  e = ArgumentErr (malformed_url_msg url) \/
  e = ArgumentErr (bad_segments_msg url) \/
  e = ArgumentErr (bad_host_port_msg url).
Proof.
  unfold parse_url.
  destruct (Str.find "pf://" url) as [[|k]|] eqn:F;
    try solve [cbn [snd]; intros H; inversion H; auto].
  apply find_zero_iff_prefix, prefix_split in F. destruct F as [rest ->].
  rewrite substr_scheme.
  destruct (Str.split (Str.is_any_of "/") rest) as [|s0 [|s1 [|s2 [|s3 l]]]];
    try solve [cbn [snd]; intros H; inversion H; auto 6].
  destruct (Str.split (Str.is_any_of ":") s0) as [|h [|p0 [|q l]]];
    try solve [cbn [snd]; intros H; inversion H; auto 6].
  destruct (Str.lexical_cast_int p0); cbn [snd]; intros H; inversion H; auto.
Qed.

Lemma parse_url_exceptions_witness :
  ArgumentErr (bad_segments_msg "pf://a") = bad_lexical_cast \/
  ArgumentErr (bad_segments_msg "pf://a") =
    ArgumentErr (malformed_url_msg "pf://a") \/
  ArgumentErr (bad_segments_msg "pf://a") =
    ArgumentErr (bad_segments_msg "pf://a") \/
  ArgumentErr (bad_segments_msg "pf://a") =
    ArgumentErr (bad_host_port_msg "pf://a").
Proof.
  exact (parse_url_exceptions "pf://a" (mk_url_fields "" 0 "" "")
           (ArgumentErr (bad_segments_msg "pf://a")) eq_refl).
Defined.

(** X2. The values the four references hold before the call play no part
    in how [parse_url] ends, and none in what they hold after a normal
    return: every one of them has been assigned. *)
Theorem parse_url_ignores_initial_values (url : string)
        (out out' : url_fields) :
  snd (parse_url url out) = snd (parse_url url out') /\
  (snd (parse_url url out) = Normal tt ->
   fst (parse_url url out) = fst (parse_url url out')).
Proof.
  unfold parse_url.
  destruct (Str.find "pf://" url) as [[|k]|];
    try (split; [reflexivity | discriminate]).
  destruct (Str.substr 5 url) as [rest|];
    [|split; [reflexivity | discriminate]].
  destruct (Str.split (Str.is_any_of "/") rest) as [|s0 [|s1 [|s2 [|s3 l]]]];
    try (split; [reflexivity | discriminate]);
    [split; reflexivity|].
  destruct (Str.split (Str.is_any_of ":") s0) as [|h [|p0 [|q l]]];
    try (split; [reflexivity | discriminate]);
    [split; reflexivity|].
  destruct (Str.lexical_cast_int p0);
    split; first [reflexivity | discriminate].
Qed.

Lemma parse_url_ignores_initial_values_witness :
  fst (parse_url "pf://h:80/rk/name" (mk_url_fields "a" 1 "b" "c")) =
  fst (parse_url "pf://h:80/rk/name" (mk_url_fields "x" 2 "y" "z")).
Proof.
  exact (proj2 (parse_url_ignores_initial_values
                  "pf://h:80/rk/name" (mk_url_fields "a" 1 "b" "c")
                  (mk_url_fields "x" 2 "y" "z")) eq_refl).
Defined.

(** X3. [parse_url] returns normally on the two documented shapes only:
    the URL is [pf://<routing_key>/<name>], with host [localhost] and
    port 5672, or [pf://<host>/<routing_key>/<name>] with port 5672, or
    [pf://<host>:<p>/<routing_key>/<name>] with the port read from [p].
    The routing key and the name it returns hold no ['/'], the host
    neither ['/'] nor [':'], and the port is within the range of [int]. *)
Theorem parse_url_accepts_only (url : string) (out a : url_fields) :
  parse_url url out = (a, Normal tt) ->
  (no_slash (exchange a) /\ no_slash (platefile_name a) /\
   no_slash (hostname a) /\ no_colon (hostname a) /\
   (Str.INT_MIN <= port a <= Str.INT_MAX)%Z) /\
  ((url = "pf://" ++ exchange a ++ "/" ++ platefile_name a /\
    hostname a = "localhost" /\ port a = 5672%Z) \/
   (url = "pf://" ++ hostname a ++ "/" ++ exchange a ++ "/" ++
          platefile_name a /\ port a = 5672%Z) \/
   (exists p : string,
       url = "pf://" ++ (hostname a ++ ":" ++ p) ++ "/" ++ exchange a ++
             "/" ++ platefile_name a /\
       Str.lexical_cast_int p = Some (port a))).
Proof.
  unfold parse_url.
  destruct (Str.find "pf://" url) as [[|k]|] eqn:F; try discriminate.
  apply find_zero_iff_prefix, prefix_split in F. destruct F as [rest ->].
  rewrite substr_scheme.
  destruct (Str.split (Str.is_any_of "/") rest)
    as [|s0 [|s1 [|s2 [|s3 l]]]] eqn:E; try discriminate.
  - apply split_two_inv in E. destruct E as (-> & H0 & H1).
    intros H. inversion H; subst; clear H. cbn.
    split; [|left; auto].
    repeat split; try assumption; try reflexivity; discriminate.
  - apply split_three_inv in E. destruct E as (-> & H0 & H1 & H2).
    destruct (Str.split (Str.is_any_of ":") s0)
      as [|h [|p0 [|q l]]] eqn:C; try discriminate.
    + apply split_colon_inv in C. destruct C as [C Fc]. cbn in C. subst s0.
      inversion Fc as [|? ? Hh _]; subst.
      intros H. inversion H; subst; clear H. cbn.
      split; [|right; left; auto].
      repeat split; try assumption; discriminate.
    + apply split_colon_inv in C. destruct C as [C Fc]. cbn in C. subst s0.
      inversion Fc as [|? ? Hh _]; subst.
      destruct (Str.lexical_cast_int p0) as [n|] eqn:L; [|discriminate].
      intros H. inversion H; subst; clear H. cbn.
      split; [|right; right; exists p0; auto].
      unfold no_slash in H0. rewrite count_append in H0.
      repeat split; try assumption;
        try (unfold no_slash; lia);
        apply (lexical_cast_in_range _ _ L).
Qed.

Lemma parse_url_accepts_only_witness :
  exists p : string,
    "pf://1.2.3.4:9999/myexchange/foo.plate" =
      "pf://" ++ ("1.2.3.4" ++ ":" ++ p) ++ "/" ++ "myexchange" ++ "/" ++
      "foo.plate" /\
    Str.lexical_cast_int p = Some 9999%Z.
Proof.
  destruct (parse_url_accepts_only
              "pf://1.2.3.4:9999/myexchange/foo.plate"
              (mk_url_fields "" 0 "" "")
              (mk_url_fields "1.2.3.4" 9999 "myexchange" "foo.plate")
              eq_refl) as [_ [[_ [_ H]] | [[_ H] | H]]].
  - discriminate H.
  - discriminate H.
  - exact H.
Defined.

Lemma decimal_digits (k : nat) :
  Str.digits_value 0 (decimal k) = Some (Z.of_nat k).
Proof.
  unfold decimal.
  pose proof (digits_value_of_uint (Nat.to_uint k) 0) as V.
  change (Nat.of_uint_acc (Nat.to_uint k) 0)
    with (Nat.of_uint (Nat.to_uint k)) in V.
  now rewrite DecimalNat.Unsigned.of_to in V.
Qed.

Lemma decimal_no_separator (k : nat) :
  no_slash (decimal k) /\ no_colon (decimal k).
Proof. exact (digits_no_separator _ _ _ (decimal_digits k)). Qed.

Lemma cast_body_decimal (neg : bool) (k : nat) :
  Str.cast_body neg (decimal k) =
    let v := if neg then (- Z.of_nat k)%Z else Z.of_nat k in
    if (Str.INT_MIN <=? v)%Z && (v <=? Str.INT_MAX)%Z then Some v else None.
Proof.
  unfold Str.cast_body. rewrite decimal_digits.
  unfold decimal. pose proof (to_uint_not_nil k) as NN.
  destruct (Nat.to_uint k); [congruence| | | | | | | | | |]; reflexivity.
Qed.

Lemma lexical_cast_unsigned (k : nat) :
  Str.lexical_cast_int (decimal k) = Str.cast_body false (decimal k).
Proof.
  unfold decimal. pose proof (to_uint_not_nil k) as NN.
  destruct (Nat.to_uint k); [congruence| | | | | | | | | |]; reflexivity.
Qed.

(** [lexical_cast<int>] reads an integer from its decimal spelling
    exactly when the integer fits an [int]. *)
Lemma lexical_cast_decimal_Z (z : Z) :
  Str.lexical_cast_int (decimal_Z z) =
    if (Str.INT_MIN <=? z)%Z && (z <=? Str.INT_MAX)%Z then Some z else None.
Proof.
  unfold decimal_Z. destruct (z <? 0)%Z eqn:S.
  - apply Z.ltb_lt in S.
    change (Str.lexical_cast_int (String "-" (decimal (Z.to_nat (- z)))))
      with (Str.cast_body true (decimal (Z.to_nat (- z)))).
    rewrite cast_body_decimal. cbv zeta.
    rewrite Z2Nat.id by lia. now rewrite Z.opp_involutive.
  - apply Z.ltb_ge in S.
    rewrite lexical_cast_unsigned, cast_body_decimal. cbv zeta.
    now rewrite Z2Nat.id by lia.
Qed.

Lemma decimal_Z_no_separator (z : Z) :
  no_slash (decimal_Z z) /\ no_colon (decimal_Z z).
Proof.
  unfold decimal_Z. destruct (z <? 0)%Z.
  - destruct (decimal_no_separator (Z.to_nat (- z))) as [Hs Hc].
    split; [exact Hs | exact Hc].
  - apply decimal_no_separator.
Qed.

(** X4. The port of a URL is checked against the range of [int] and
    against nothing else: written in decimal, any integer from [INT_MIN]
    to [INT_MAX], negative ones included, is returned as the port, and
    any integer outside makes [parse_url] fail with [bad_lexical_cast]. *)
Theorem parse_url_port_range (out : url_fields)
        (host routing_key name : string) (z : Z) :
  no_slash host -> no_colon host -> no_slash routing_key -> no_slash name ->
  parse_url ("pf://" ++ (host ++ ":" ++ decimal_Z z) ++ "/" ++
             routing_key ++ "/" ++ name) out =
    if (Str.INT_MIN <=? z)%Z && (z <=? Str.INT_MAX)%Z
    then (mk_url_fields host z routing_key name, Normal tt)
    else (set_hostname host
            (set_platefile_name name (set_exchange routing_key out)),
          Throws bad_lexical_cast).
Proof.
  intros Hs Hc Hr Hn. destruct (decimal_Z_no_separator z) as [Hps Hpc].
  rewrite (parse_url_host_port out host _ routing_key name
             Hs Hc Hps Hpc Hr Hn).
  rewrite lexical_cast_decimal_Z.
  destruct ((Str.INT_MIN <=? z)%Z && (z <=? Str.INT_MAX)%Z); reflexivity.
Qed.

Lemma parse_url_port_range_witness :
  parse_url "pf://h:-1/rk/name" (mk_url_fields "" 0 "" "") =
    (mk_url_fields "h" (-1) "rk" "name", Normal tt) /\
  parse_url "pf://h:65536/rk/name" (mk_url_fields "" 0 "" "") =
    (mk_url_fields "h" 65536 "rk" "name", Normal tt) /\
  parse_url ("pf://" ++ ("h" ++ ":" ++ decimal_Z 2147483648) ++ "/" ++
             "rk" ++ "/" ++ "name") (mk_url_fields "" 0 "" "") =
    (mk_url_fields "h" 0 "rk" "name", Throws bad_lexical_cast).
Proof.
  split; [|split].
  - exact (parse_url_port_range (mk_url_fields "" 0 "" "") "h" "rk" "name"
             (-1) eq_refl eq_refl eq_refl eq_refl).
  - exact (parse_url_port_range (mk_url_fields "" 0 "" "") "h" "rk" "name"
             65536 eq_refl eq_refl eq_refl eq_refl).
  - exact (parse_url_port_range (mk_url_fields "" 0 "" "") "h" "rk" "name"
             2147483648 eq_refl eq_refl eq_refl eq_refl).
Defined.

(** * Runs of operations on one client *)

Section ClientRuns.

Context {TileHeader IndexRecord BBox2i : Type}.
Variables bbox_min_x bbox_min_y bbox_width bbox_height : BBox2i -> Z.
Variable INDEX_EXCHANGE : string.
Variable UniqueQueueName : string -> string.
Variable service :
  list (@RemoteIndex.Request TileHeader IndexRecord) ->
  forall r : @RemoteIndex.Request TileHeader IndexRecord,
    RemoteIndex.Reply r.

Local Open Scope list_scope.

Local Abbreviation world := (@RemoteIndex.world TileHeader IndexRecord).
Local Abbreviation pending := RemoteIndex.pending.
Local Abbreviation wire := RemoteIndex.wire.
Local Abbreviation self := RemoteIndex.self.
Local Abbreviation threshold := RemoteIndex.max_pending_write_updates.
Local Abbreviation after := RemoteIndex.after.
Local Abbreviation id_of w := (RemoteIndex.m_platefile_id (self w)).
Local Abbreviation perform :=
  (RemoteIndex.perform bbox_min_x bbox_min_y bbox_width bbox_height service).
Local Abbreviation perform_all :=
  (RemoteIndex.perform_all bbox_min_x bbox_min_y bbox_width bbox_height
                           service).

(** Every operation has one of the five effects. *)
Lemma perform_effect (o : RemoteIndex.operation) (w : world) :
  RemoteIndex.effect w (RemoteIndex.enqueued_by (id_of w) o)
                     (snd (perform o w)).
Proof.
  destruct o as [c r l t e|c r l b e|n|h x|b o|l g b e n| | | | | | | |
                 |d o|t u|t|];
    cbn [RemoteIndex.perform RemoteIndex.enqueued_by];
    try (unfold RemoteIndex.read_request, RemoteIndex.multi_read_request,
           RemoteIndex.valid_tiles, RemoteIndex.num_levels,
           RemoteIndex.write_complete, RemoteIndex.transaction_complete,
           RemoteIndex.transaction_failed, RemoteIndex.discard,
           RemoteIndex.bind;
         rewrite flush_write_queue_spec;
         unfold RemoteIndex.this, RemoteIndex.call, RemoteIndex.ret;
         cbn [fst snd RemoteIndex.self RemoteIndex.wire RemoteIndex.after];
         rewrite <- app_assoc; cbn [app];
         apply (RemoteIndex.effect_flush_own w); reflexivity);
    try (apply (RemoteIndex.effect_own w); reflexivity);
    try apply RemoteIndex.effect_none.
  pose proof (write_update_spec service w h x) as W.
  cbv zeta in W. rewrite W. cbn [snd].
  destruct (Nat.leb threshold _) eqn:E.
  - apply Nat.leb_le in E.
    apply (RemoteIndex.effect_enqueue_flush w); [reflexivity | exact E].
  - apply Nat.leb_gt in E.
    apply (RemoteIndex.effect_enqueue w); [reflexivity | exact E].
Qed.

Lemma perform_all_cons (o : RemoteIndex.operation)
      (os : list RemoteIndex.operation) (w : world) :
  perform_all (o :: os) w = perform_all os (snd (perform o w)).
Proof. reflexivity. Qed.

Lemma effect_frame (w w' : world) us :
  RemoteIndex.effect w us w' ->
  self w' = RemoteIndex.with_write_queue (pending w') (self w).
Proof.
  intros E. destruct E; try reflexivity;
    destruct w as [[c i h s f q] t]; reflexivity.
Qed.

Lemma effect_id (w w' : world) us :
  RemoteIndex.effect w us w' -> id_of w' = id_of w.
Proof. intros E. now rewrite (effect_frame _ _ _ E). Qed.

Lemma effect_wire (w w' : world) us :
  RemoteIndex.effect w us w' ->
  exists sent, wire w' = wire w ++ sent /\ List.length sent <= 2.
Proof.
  intros E. destruct E.
  - exists []. rewrite app_nil_r. auto.
  - exists [own]. cbn. auto.
  - eexists. split; [reflexivity | cbn; auto].
  - exists []. cbn. auto.
  - eexists. split; [reflexivity | cbn; auto].
Qed.

Lemma sent_updates_app (l l' : list (@RemoteIndex.Request
                                       TileHeader IndexRecord)) :
  RemoteIndex.sent_updates (l ++ l') =
    RemoteIndex.sent_updates l ++ RemoteIndex.sent_updates l'.
Proof. apply flat_map_app. Qed.

Lemma sent_updates_own (own : @RemoteIndex.Request TileHeader IndexRecord) :
  RemoteIndex.is_batch own = false -> RemoteIndex.batch_of own = [].
Proof. destruct own; try reflexivity; discriminate. Qed.

Lemma standalone_kinds (own : @RemoteIndex.Request TileHeader IndexRecord) :
  RemoteIndex.standalone own = true ->
  RemoteIndex.is_batch own = false /\ RemoteIndex.is_session own = false /\
  RemoteIndex.flushes_first own = false.
Proof. destruct own; try discriminate; auto. Qed.

Lemma flushes_first_kinds
      (own : @RemoteIndex.Request TileHeader IndexRecord) :
  RemoteIndex.flushes_first own = true ->
  RemoteIndex.is_batch own = false /\ RemoteIndex.is_session own = false.
Proof. destruct own; try discriminate; auto. Qed.

(** One step keeps the updates: those sent followed by those pending
    grow by exactly the entries the step made. *)
Lemma effect_conservation (w w' : world) us :
  RemoteIndex.effect w us w' ->
  RemoteIndex.sent_updates (wire w') ++ pending w' =
    RemoteIndex.sent_updates (wire w) ++ pending w ++ us.
Proof.
  intros E. destruct E as [|own S _|own F _|u _ _|u _ _];
    unfold RemoteIndex.after, RemoteIndex.pending;
    cbn [RemoteIndex.wire RemoteIndex.self RemoteIndex.m_write_queue
         RemoteIndex.with_write_queue];
    rewrite ?sent_updates_app, ?app_nil_r; try reflexivity.
  - destruct (standalone_kinds _ S) as (B & _ & _).
    unfold RemoteIndex.sent_updates at 2. cbn [flat_map].
    rewrite (sent_updates_own _ B). cbn. now rewrite app_nil_r.
  - destruct (flushes_first_kinds _ F) as (B & _).
    unfold RemoteIndex.sent_updates at 2. cbn [flat_map RemoteIndex.batch_of].
    rewrite (sent_updates_own _ B). now rewrite !app_nil_r.
  - unfold RemoteIndex.sent_updates at 2. cbn [flat_map RemoteIndex.batch_of].
    now rewrite !app_nil_r.
Qed.


Lemma run_conservation (os : list RemoteIndex.operation) (w : world) :
  RemoteIndex.sent_updates (wire (perform_all os w)) ++
  pending (perform_all os w) =
    RemoteIndex.sent_updates (wire w) ++ pending w ++
    RemoteIndex.enqueued (id_of w) os.
Proof.
  revert w. induction os as [|o os IH]; intros w.
  - cbn. now rewrite app_nil_r.
  - rewrite perform_all_cons, IH, app_assoc.
    rewrite (effect_conservation _ _ _ (perform_effect o w)).
    rewrite (effect_id _ _ _ (perform_effect o w)).
    unfold RemoteIndex.enqueued. cbn [flat_map].
    now rewrite <- !app_assoc.
Qed.

Lemma constructed_shape (w : world) :
  RemoteIndex.constructed INDEX_EXCHANGE UniqueQueueName service w ->
  pending w = [] /\
  (exists s, wire w = [s] /\ RemoteIndex.is_session s = true) /\
  id_of w = IndexHeader.platefile_id (RemoteIndex.m_index_header (self w)).
Proof.
  intros [(url & i & H) | (url & hdr & i & H)];
    [unfold RemoteIndex.open in H | unfold RemoteIndex.create in H];
    destruct (parse_url url (RemoteIndex.locals i)) as [a [[]|e]];
    inversion H; subst; clear H;
    (split; [reflexivity|]; split; [|reflexivity]);
    eexists; split; reflexivity.
Qed.

(** X5. No operation changes anything of the client but its queue: the
    platefile id, the cached header, the two file names and the
    connection stay what the constructor made them, so the accessors
    answer the same after any run of operations. *)
Theorem operations_change_only_the_queue
        (os : list RemoteIndex.operation) (w : world) :
  self (perform_all os w) =
    RemoteIndex.with_write_queue (pending (perform_all os w)) (self w) /\
  fst (RemoteIndex.index_header (perform_all os w)) =
    fst (RemoteIndex.index_header w) /\
  fst (RemoteIndex.platefile_name (perform_all os w)) =
    fst (RemoteIndex.platefile_name w) /\
  fst (RemoteIndex.version (perform_all os w)) =
    fst (RemoteIndex.version w).
Proof.
  assert (F : self (perform_all os w) =
              RemoteIndex.with_write_queue (pending (perform_all os w))
                                           (self w)).
  { revert w. induction os as [|o os IH]; intros w.
    - destruct w as [[c i h s f q] t]. reflexivity.
    - rewrite perform_all_cons, IH.
      rewrite (effect_frame _ _ _ (perform_effect o w)). reflexivity. }
  split; [exact F|].
  unfold RemoteIndex.index_header, RemoteIndex.platefile_name,
    RemoteIndex.version, RemoteIndex.bind, RemoteIndex.this, RemoteIndex.ret.
  cbn [fst]. rewrite F. auto.
Qed.

(** X6. The wire only grows, and by at most two requests for each
    operation. *)
Theorem wire_grows_by_at_most_two
        (os : list RemoteIndex.operation) (w : world) :
  exists sent,
    wire (perform_all os w) = wire w ++ sent /\
    List.length sent <= 2 * List.length os.
Proof.
  revert w. induction os as [|o os IH]; intros w.
  - exists []. cbn. rewrite app_nil_r. auto.
  - rewrite perform_all_cons.
    destruct (IH (snd (perform o w))) as (s2 & E2 & L2).
    destruct (effect_wire _ _ _ (perform_effect o w)) as (s1 & E1 & L1).
    exists (s1 ++ s2). rewrite E2, E1, <- app_assoc.
    split; [reflexivity|]. rewrite length_app. cbn [List.length]. lia.
Qed.

(** X7. No update is lost, repeated or reordered.  On a client that a
    constructor made, the updates sent so far followed by the pending
    ones are the entries of the [write_update] calls made so far, in
    the order of the calls; and once the destructor has run, all of them
    have been sent. *)
Theorem updates_are_conserved
        (os : list RemoteIndex.operation) (w : world) :
  RemoteIndex.constructed INDEX_EXCHANGE UniqueQueueName service w ->
  RemoteIndex.sent_updates (wire (perform_all os w)) ++
  pending (perform_all os w) = RemoteIndex.enqueued (id_of w) os /\
  RemoteIndex.sent_updates
    (wire (snd (RemoteIndex.destroy service (perform_all os w)))) =
    RemoteIndex.enqueued (id_of w) os.
Proof.
  intros C. destruct (constructed_shape w C) as (P & (s & W & S) & _).
  assert (K : RemoteIndex.sent_updates (wire (perform_all os w)) ++
              pending (perform_all os w) =
              RemoteIndex.enqueued (id_of w) os).
  { rewrite run_conservation, P, W. cbn.
    destruct s; try discriminate; reflexivity. }
  split; [exact K|].
  unfold RemoteIndex.destroy. rewrite flush_write_queue_spec. cbn [snd].
  rewrite wire_after, sent_updates_app.
  unfold RemoteIndex.sent_updates at 2. cbn [flat_map RemoteIndex.batch_of].
  rewrite app_nil_r. exact K.
Qed.

(** What every step keeps, every run keeps. *)
Lemma run_invariant (P : world -> Prop) :
  (forall w us w', P w -> RemoteIndex.effect w us w' -> P w') ->
  forall (os : list RemoteIndex.operation) (w : world),
    P w -> P (perform_all os w).
Proof.
  intros Step os. induction os as [|o os IH]; intros w H; [exact H|].
  rewrite perform_all_cons. apply IH.
  exact (Step _ _ _ H (perform_effect o w)).
Qed.

(** X8. On a client that a constructor made, no batch ever carries more
    than ten updates. *)
Theorem batches_hold_at_most_ten
        (os : list RemoteIndex.operation) (w : world) :
  RemoteIndex.constructed INDEX_EXCHANGE UniqueQueueName service w ->
  Forall (fun r => List.length (RemoteIndex.batch_of r) <= threshold)
         (wire (perform_all os w)).
Proof.
  intros C. destruct (constructed_shape w C) as (P & (s & W & S) & _).
  refine (proj2 (run_invariant
            (fun w => List.length (pending w) < threshold /\
                      Forall (fun r => List.length (RemoteIndex.batch_of r)
                                       <= threshold) (wire w))
            _ os w _)).
  - clear. intros w us w' [B F] E.
    destruct E as [|own S _|own Fl _|u _ L|u _ L];
      unfold RemoteIndex.after, RemoteIndex.pending in *;
      cbn [RemoteIndex.wire RemoteIndex.self RemoteIndex.m_write_queue
           RemoteIndex.with_write_queue] in *.
    + auto.
    + split; [exact B|]. apply Forall_app. split; [exact F|].
      constructor; [|constructor].
      destruct (standalone_kinds _ S) as (K & _).
      rewrite (sent_updates_own _ K). cbn. lia.
    + split; [cbn; unfold threshold; lia|].
      apply Forall_app. split; [exact F|].
      constructor; [cbn; lia|]. constructor; [|constructor].
      destruct (flushes_first_kinds _ Fl) as (K & _).
      rewrite (sent_updates_own _ K). cbn. lia.
    + split; [exact L|]. now rewrite app_nil_r.
    + split; [cbn; unfold threshold; lia|].
      apply Forall_app. split; [exact F|].
      constructor; [|constructor]. cbn [RemoteIndex.batch_of].
      rewrite length_app in *. cbn [List.length] in *. lia.
  - rewrite P, W. split; [cbn; unfold threshold; lia|].
    constructor; [|constructor]. destruct s; try discriminate; cbn; lia.
Qed.

Lemma flush_ordered_snoc (b : bool)
      (l : list (@RemoteIndex.Request TileHeader IndexRecord)) own :
  RemoteIndex.flushes_first own = false ->
  RemoteIndex.flush_ordered b l = true ->
  RemoteIndex.flush_ordered b (l ++ [own]) = true.
Proof.
  intros N. revert b. induction l as [|r l IH]; intros b H; cbn in *.
  - now rewrite N.
  - apply andb_true_iff in H. destruct H as [H1 H2].
    rewrite H1. now apply IH.
Qed.

Lemma flush_ordered_batch_own (b : bool)
      (l : list (@RemoteIndex.Request TileHeader IndexRecord)) q own :
  RemoteIndex.flush_ordered b l = true ->
  RemoteIndex.flush_ordered
    b (l ++ [RemoteIndex.MultiWriteUpdate q; own]) = true.
Proof.
  revert b. induction l as [|r l IH]; intros b H; cbn in *.
  - now destruct (RemoteIndex.flushes_first own).
  - apply andb_true_iff in H. destruct H as [H1 H2].
    rewrite H1. now apply IH.
Qed.

(** X9. On a client that a constructor made, every request of an
    operation that starts with a flush comes on the wire right after a
    batch: the service never gets a read, an enumeration, a completion
    or the end of a transaction before the updates queued ahead of it. *)
Theorem flushing_requests_follow_a_batch
        (os : list RemoteIndex.operation) (w : world) :
  RemoteIndex.constructed INDEX_EXCHANGE UniqueQueueName service w ->
  RemoteIndex.flush_ordered false (wire (perform_all os w)) = true.
Proof.
  intros C. destruct (constructed_shape w C) as (_ & (s & W & S) & _).
  apply (run_invariant
           (fun w => RemoteIndex.flush_ordered false (wire w) = true)).
  - clear. intros w us w' H E.
    destruct E as [|own S _|own Fl _|u _ L|u _ L];
      unfold RemoteIndex.after;
      cbn [RemoteIndex.wire RemoteIndex.self]; rewrite ?app_nil_r.
    + exact H.
    + destruct (standalone_kinds _ S) as (_ & _ & N).
      now apply flush_ordered_snoc.
    + now apply flush_ordered_batch_own.
    + exact H.
    + now apply flush_ordered_snoc.
  - rewrite W. destruct s; try discriminate; reflexivity.
Qed.


(** X11. A client opens one session and no more: on a client that a
    constructor made, the first request on the wire is the constructor's
    and no later one is an open or a create. *)
Theorem one_session_per_client
        (os : list RemoteIndex.operation) (w : world) :
  RemoteIndex.constructed INDEX_EXCHANGE UniqueQueueName service w ->
  exists s rest,
    wire (perform_all os w) = s :: rest /\
    RemoteIndex.is_session s = true /\
    Forall (fun r => RemoteIndex.is_session r = false) rest.
Proof.
  intros C. destruct (constructed_shape w C) as (_ & (s & W & S) & _).
  apply (run_invariant
           (fun w => exists s rest,
                wire w = s :: rest /\ RemoteIndex.is_session s = true /\
                Forall (fun r => RemoteIndex.is_session r = false) rest)).
  - clear. intros w us w' (s & rest & W & S & F) E.
    destruct E as [|own St _|own Fl _|u _ L|u _ L];
      unfold RemoteIndex.after; cbn [RemoteIndex.wire RemoteIndex.self];
      rewrite W; try (exists s, rest; rewrite ?app_nil_r; now auto);
      eexists s, _; (split; [reflexivity|]); (split; [exact S|]);
      apply Forall_app; (split; [exact F|]); repeat constructor.
    + now destruct (standalone_kinds _ St) as (_ & N & _).
    + now destruct (flushes_first_kinds _ Fl) as (_ & N).
  - exists s, []. rewrite W. auto.
Qed.

Lemma perform_all_app (os os' : list RemoteIndex.operation) (w : world) :
  perform_all (os ++ os') w = perform_all os' (perform_all os w).
Proof.
  revert w. induction os as [|o os IH]; intros w; [reflexivity|].
  cbn [app]. rewrite !perform_all_cons. apply IH.
Qed.

(** An operation that starts with a flush sends the pending updates and
    then its own request. *)
Lemma flushing_effect (o : RemoteIndex.operation) (w : world) :
  RemoteIndex.flushing o = true ->
  exists own,
    RemoteIndex.flushes_first own = true /\
    snd (perform o w) =
      after w [] [RemoteIndex.MultiWriteUpdate (pending w); own].
Proof.
  destruct o as [c r l t e|c r l b e|n|h x|b o|l g b e n| | | | | | | |
                 |d o|t u|t|];
    try discriminate; intros _;
    cbn [RemoteIndex.perform];
    unfold RemoteIndex.read_request, RemoteIndex.multi_read_request,
      RemoteIndex.valid_tiles, RemoteIndex.num_levels,
      RemoteIndex.write_complete, RemoteIndex.transaction_complete,
      RemoteIndex.transaction_failed, RemoteIndex.discard,
      RemoteIndex.bind;
    rewrite flush_write_queue_spec;
    unfold RemoteIndex.this, RemoteIndex.call, RemoteIndex.ret;
    cbn [fst snd RemoteIndex.self RemoteIndex.wire RemoteIndex.after];
    rewrite <- app_assoc; cbn [app];
    eexists; (split; [|reflexivity]); reflexivity.
Qed.

(** X12. Read your writes.  On a client that a constructor made, when
    the request of an operation that starts with a flush goes out, every
    update written before it has been sent, and none is left pending. *)
Theorem writes_are_sent_before_a_flushing_request
        (os : list RemoteIndex.operation) (o : RemoteIndex.operation)
        (w : world) :
  RemoteIndex.constructed INDEX_EXCHANGE UniqueQueueName service w ->
  RemoteIndex.flushing o = true ->
  exists before own,
    wire (perform_all (os ++ [o]) w) = before ++ [own] /\
    RemoteIndex.flushes_first own = true /\
    RemoteIndex.sent_updates before = RemoteIndex.enqueued (id_of w) os /\
    pending (perform_all (os ++ [o]) w) = [].
Proof.
  intros C Fl. destruct (constructed_shape w C) as (P & (s & W & S) & _).
  rewrite perform_all_app. cbn [RemoteIndex.perform_all].
  destruct (flushing_effect o (perform_all os w) Fl) as (own & K & E).
  rewrite E. unfold RemoteIndex.after. cbn [RemoteIndex.wire].
  exists (wire (perform_all os w) ++
          [RemoteIndex.MultiWriteUpdate (pending (perform_all os w))]), own.
  split; [now rewrite <- app_assoc|]. split; [exact K|].
  split; [|reflexivity].
  rewrite sent_updates_app.
  unfold RemoteIndex.sent_updates at 2. cbn [flat_map RemoteIndex.batch_of].
  rewrite app_nil_r, run_conservation, P, W. cbn.
  destruct s; try discriminate; reflexivity.
Qed.

(** X13. Two operations in a row that both start with a flush cost four
    requests, and the second batch is empty. *)
Theorem second_flush_sends_an_empty_batch
        (o1 o2 : RemoteIndex.operation) (w : world) :
  RemoteIndex.flushing o1 = true -> RemoteIndex.flushing o2 = true ->
  exists own1 own2,
    wire (perform_all [o1; o2] w) =
      wire w ++ [RemoteIndex.MultiWriteUpdate (pending w); own1;
                 RemoteIndex.MultiWriteUpdate []; own2].
Proof.
  intros F1 F2. cbn [RemoteIndex.perform_all].
  destruct (flushing_effect o1 w F1) as (own1 & _ & E1). rewrite E1.
  destruct (flushing_effect o2 (after w [] [RemoteIndex.MultiWriteUpdate
                                              (pending w); own1]) F2)
    as (own2 & _ & E2).
  rewrite E2. exists own1, own2.
  rewrite after_after, wire_after. reflexivity.
Qed.

(** X14. What an operation returns is the answer of the service to its
    own request: given with the batch of pending updates already on the
    wire for the operations that start with a flush, and without it for
    [write_request], [transaction_request] and [transaction_cursor]. *)
Theorem replies_follow_the_flush (w : world) :
  let id := id_of w in
  let flushed := wire w ++ [RemoteIndex.MultiWriteUpdate (pending w)] in
  (forall col row level transaction_id exact,
      fst (RemoteIndex.read_request service col row level
                                    transaction_id exact w) =
        service flushed (RemoteIndex.ReadRequest id col row level
                                                 transaction_id exact)) /\
  (forall level region begin_id end_id min_num_matches,
      fst (RemoteIndex.valid_tiles bbox_min_x bbox_min_y bbox_width
             bbox_height service level region begin_id end_id
             min_num_matches w) =
        service flushed
          (RemoteIndex.ValidTiles id level
             (bbox_min_x region) (bbox_min_y region)
             (bbox_width region) (bbox_height region)
             begin_id end_id min_num_matches)) /\
  fst (RemoteIndex.num_levels service w) =
    service flushed (RemoteIndex.NumLevelsRequest id) /\
  (forall size,
      fst (RemoteIndex.write_request service size w) =
        service (wire w) (RemoteIndex.WriteRequest id size)) /\
  (forall description override,
      fst (RemoteIndex.transaction_request service description override w) =
        service (wire w)
                (RemoteIndex.TransactionRequest id description override)) /\
  fst (RemoteIndex.transaction_cursor service w) =
    service (wire w) (RemoteIndex.TransactionCursor id).
Proof.
  cbv zeta.
  repeat split; intros;
    unfold RemoteIndex.read_request, RemoteIndex.valid_tiles,
      RemoteIndex.num_levels, RemoteIndex.bind;
    rewrite ?flush_write_queue_spec; reflexivity.
Qed.

Lemma combine_fst {A B : Type} (l : list A) (l' : list B) :
  List.length l <= List.length l' -> map fst (combine l l') = l.
Proof.
  revert l'. induction l as [|a l IH]; intros [|b l'] L; cbn in *;
    try reflexivity; try lia.
  f_equal. apply IH. lia.
Qed.

Lemma combine_snd {A B : Type} (l : list A) (l' : list B) :
  map snd (combine l l') = firstn (Nat.min (List.length l) (List.length l'))
                                  l'.
Proof.
  revert l'. induction l as [|a l IH]; intros [|b l']; cbn;
    try reflexivity.
  f_equal. apply IH.
Qed.

(** X15. When the reply to a [MultiReadRequest] holds a record for each
    of its transaction ids, [multi_read_request] returns one pair for
    each id, in the order of the reply: the ids as they came, each with
    the record at the same place. *)
Theorem multi_read_keeps_the_order_of_the_reply
        (col row level begin_id end_id : Z) (w : world) :
  let reply :=
    service (wire w ++ [RemoteIndex.MultiWriteUpdate (pending w)])
            (RemoteIndex.MultiReadRequest (id_of w) col row level
                                          begin_id end_id) in
  let result :=
    fst (RemoteIndex.multi_read_request service col row level
                                        begin_id end_id w) in
  List.length (RemoteIndex.transaction_ids reply) <=
  List.length (RemoteIndex.index_records reply) ->
  map fst result = RemoteIndex.transaction_ids reply /\
  map snd result =
    firstn (List.length (RemoteIndex.transaction_ids reply))
           (RemoteIndex.index_records reply).
Proof.
  cbv zeta. intros L.
  unfold RemoteIndex.multi_read_request, RemoteIndex.bind.
  rewrite flush_write_queue_spec.
  unfold RemoteIndex.this, RemoteIndex.call, RemoteIndex.ret.
  cbn [fst snd RemoteIndex.self RemoteIndex.wire RemoteIndex.after
       RemoteIndex.m_platefile_id RemoteIndex.with_write_queue].
  split; [now apply combine_fst|].
  rewrite combine_snd. now rewrite Nat.min_l.
Qed.

(** X16. The port that the constructors declare without a value never
    shows: whatever it holds, the constructor throws the same or makes
    the same client. *)
Theorem constructors_depend_on_the_url_only
        (url : string) (index_header_info : IndexHeader.t) (i i' : Z) :
  RemoteIndex.open INDEX_EXCHANGE UniqueQueueName service url i =
    RemoteIndex.open INDEX_EXCHANGE UniqueQueueName service url i' /\
  RemoteIndex.create INDEX_EXCHANGE UniqueQueueName service
                     url index_header_info i =
    RemoteIndex.create INDEX_EXCHANGE UniqueQueueName service
                       url index_header_info i'.
Proof.
  unfold RemoteIndex.open, RemoteIndex.create, parse_url.
  destruct (Str.find "pf://" url) as [[|k]|]; try (split; reflexivity).
  destruct (Str.substr 5 url) as [rest|]; [|split; reflexivity].
  destruct (Str.split (Str.is_any_of "/") rest) as [|s0 [|s1 [|s2 [|s3 l]]]];
    try (split; reflexivity).
  destruct (Str.split (Str.is_any_of ":") s0) as [|h [|p0 [|q l]]];
    try (split; reflexivity).
  destruct (Str.lexical_cast_int p0); split; reflexivity.
Qed.

End ClientRuns.

(** * The output name of grassfirealpha *)

Lemma dot_is_separator : Str.is_any_of "." "."%char = true.
Proof. reflexivity. Qed.

Lemma prefix_dot (s : string) :
  prefix "." s = true -> exists s', s = String "." s'.
Proof.
  intros H. apply prefix_split in H. destruct H as [r ->]. now exists r.
Qed.

Lemma rfind_pos_none (s : string) :
  no_dot s -> Str.rfind_pos "." s = None.
Proof.
  unfold no_dot. induction s as [|c s IH]; [reflexivity|].
  cbn [Str.count Str.rfind_pos].
  destruct (Str.is_any_of "." c) eqn:E; [discriminate|].
  intros H. rewrite (IH H).
  destruct (prefix "." (String c s)) eqn:P; [|reflexivity].
  apply prefix_dot in P. destruct P as [s' P]. inversion P; subst.
  discriminate E.
Qed.

Lemma rfind_pos_last_dot (front back : string) :
  no_dot back ->
  Str.rfind_pos "." (front ++ String "." back) = Some (String.length front).
Proof.
  intros N. induction front as [|c front IH].
  - cbn [append Str.rfind_pos]. rewrite (rfind_pos_none _ N).
    pose proof (prefix_append "." back) as P.
    change ("." ++ back) with (String "." back) in P. now rewrite P.
  - cbn [append Str.rfind_pos String.length]. now rewrite IH.
Qed.

Lemma rfind_pos_inv (s : string) :
  match Str.rfind_pos "." s with
  | Some k => exists front back,
                s = front ++ String "." back /\ no_dot back /\
                k = String.length front
  | None => no_dot s
  end.
Proof.
  induction s as [|c s IH]; [reflexivity|].
  cbn [Str.rfind_pos].
  destruct (Str.rfind_pos "." s) as [k|].
  - destruct IH as (front & back & -> & N & ->).
    exists (String c front), back. auto.
  - destruct (prefix "." (String c s)) eqn:P.
    + apply prefix_dot in P. destruct P as [s' P]. inversion P; subst.
      exists EmptyString, s'. auto.
    + unfold no_dot in *. cbn [Str.count]. rewrite IH.
      destruct (Str.is_any_of "." c) eqn:E; [|reflexivity].
      apply is_any_of_single in E. subst c.
      pose proof (prefix_append "." s) as Q.
      change ("." ++ s) with (String "." s) in Q. congruence.
Qed.

Lemma substring_front (a b : string) :
  substring 0 (String.length a) (a ++ b) = a.
Proof.
  induction a as [|c a IH]; cbn.
  - now destruct b.
  - now rewrite IH.
Qed.

Lemma substring_all (n : nat) (a : string) :
  String.length a <= n -> substring 0 n a = a.
Proof.
  revert n. induction a as [|c a IH]; intros [|n] L; cbn in *;
    try reflexivity; try lia.
  rewrite IH; [reflexivity | lia].
Qed.

Lemma substring_back (a b : string) (n : nat) :
  String.length b <= n -> substring (String.length a) n (a ++ b) = b.
Proof.
  intros L. induction a as [|c a IH]; cbn [String.length append].
  - now apply substring_all.
  - cbn [substring]. exact IH.
Qed.

Lemma length_append (a b : string) :
  String.length (a ++ b) = String.length a + String.length b.
Proof. induction a as [|c a IH]; cbn; [reflexivity | now rewrite IH]. Qed.

Lemma size_sub_small (a b : N) :
  (b <= a)%N -> (a <= Str.SIZE_MAX)%N -> Str.size_sub a b = (a - b)%N.
Proof.
  intros L B. unfold Str.size_sub.
  replace (a + (Str.SIZE_MAX + 1) - b)%N
    with ((a - b) + 1 * (Str.SIZE_MAX + 1))%N by lia.
  rewrite N.Div0.mod_add. apply N.mod_small. lia.
Qed.

(** What [output] is on a name with a last dot. *)
Lemma output_last_dot (front back : string) :
  no_dot back ->
  (Str.size (front ++ String "." back) <= Str.SIZE_MAX)%N ->
  Grassfirealpha.output (front ++ String "." back) =
    Normal (front ++ "_grass" ++ String "." back).
Proof.
  intros N B. unfold Grassfirealpha.output, Str.rfind.
  rewrite (rfind_pos_last_dot front back N). cbv zeta.
  assert (L : Str.size (front ++ String "." back) =
              (N.of_nat (String.length front) +
               N.of_nat (S (String.length back)))%N).
  { unfold Str.size. rewrite length_append. cbn [String.length]. lia. }
  unfold Str.substr_count.
  rewrite size_sub_small by (rewrite ?L; lia).
  destruct (N.ltb_spec (Str.size (front ++ String "." back)) 0) as [H|_];
    [lia|].
  destruct (N.ltb_spec (Str.size (front ++ String "." back))
                       (N.of_nat (String.length front))) as [H|_]; [lia|].
  rewrite L.
  replace (N.to_nat (N.min (N.of_nat (String.length front))
                           (N.of_nat (String.length front) +
                            N.of_nat (S (String.length back)) - 0)))
    with (String.length front) by lia.
  change (N.to_nat 0) with 0.
  replace (N.to_nat (N.of_nat (String.length front)))
    with (String.length front) by lia.
  rewrite substring_front.
  rewrite substring_back; [reflexivity|]. cbn [String.length]. lia.
Qed.

(** X17. [output] is [input] with [_grass] put in front of its last
    ['.'], wherever that dot is: in [a.b.tif] it is the one of the
    extension, and in [dir.d/file] the one of the directory. *)
Theorem output_inserts_before_the_last_dot (front back : string) :
  no_dot back ->
  (Str.size (front ++ "." ++ back) <= Str.SIZE_MAX)%N ->
  Grassfirealpha.output (front ++ "." ++ back) =
    Normal (front ++ "_grass" ++ "." ++ back).
Proof. exact (output_last_dot front back). Qed.

Lemma output_inserts_before_the_last_dot_witness :
  Grassfirealpha.output "a.b.tif" = Normal "a.b_grass.tif" /\
  Grassfirealpha.output "dir.d/file" = Normal "dir_grass.d/file".
Proof.
  split.
  - apply (output_inserts_before_the_last_dot "a.b" "tif");
      [reflexivity | vm_compute; discriminate].
  - apply (output_inserts_before_the_last_dot "dir" "d/file");
      [reflexivity | vm_compute; discriminate].
Defined.

(** X18. On a name without any ['.'] the computation of [output] does
    not give a name: its second [substr] throws [std::out_of_range]. *)
Theorem output_without_dot_throws (input : string) :
  no_dot input -> (Str.size input < Str.npos)%N ->
  Grassfirealpha.output input = Throws out_of_range.
Proof.
  intros N B. unfold Grassfirealpha.output, Str.rfind.
  rewrite (rfind_pos_none _ N). cbv zeta. unfold Str.substr_count.
  destruct (N.ltb_spec (Str.size input) 0) as [H|_]; [lia|].
  destruct (N.ltb_spec (Str.size input) Str.npos) as [_|H]; [reflexivity|].
  lia.
Qed.

Lemma output_without_dot_throws_witness :
  Grassfirealpha.output "mosaic" = Throws out_of_range.
Proof.
  apply (output_without_dot_throws "mosaic"); [reflexivity|].
  vm_compute. reflexivity.
Defined.

Lemma last_dot_unique (a a' b b' : string) :
  no_dot b -> no_dot b' ->
  a ++ String "." b = a' ++ String "." b' -> a = a' /\ b = b'.
Proof.
  unfold no_dot. intros N N'. revert a'.
  induction a as [|c a IH]; intros [|c' a'] E; cbn [append] in E.
  - inversion E. auto.
  - inversion E; subst. rewrite count_append in N.
    cbn [Str.count] in N. rewrite dot_is_separator in N. lia.
  - inversion E; subst. rewrite count_append in N'.
    cbn [Str.count] in N'. rewrite dot_is_separator in N'. lia.
  - inversion E; subst. destruct (IH _ H1) as [-> ->]. auto.
Qed.

Lemma append_cancel_r (a a' t : string) : a ++ t = a' ++ t -> a = a'.
Proof.
  revert a'. induction a as [|c a IH]; intros [|c' a'] E; cbn [append] in E.
  - reflexivity.
  - apply (f_equal String.length) in E. cbn [String.length] in E.
    rewrite length_append in E. lia.
  - apply (f_equal String.length) in E. cbn [String.length] in E.
    rewrite length_append in E. lia.
  - inversion E; subst. f_equal. now apply IH.
Qed.

Lemma append_assoc (a b c : string) : (a ++ b) ++ c = a ++ b ++ c.
Proof. induction a as [|x a IH]; cbn; [reflexivity | now rewrite IH]. Qed.

Lemma output_inv (input o : string) :
  (Str.size input < Str.npos)%N ->
  Grassfirealpha.output input = Normal o ->
  exists front back,
    input = front ++ String "." back /\ no_dot back /\
    o = front ++ "_grass" ++ String "." back.
Proof.
  intros B H. pose proof (rfind_pos_inv input) as R.
  destruct (Str.rfind_pos "." input) as [k|].
  - destruct R as (front & back & -> & N & _).
    rewrite (output_last_dot front back N) in H
      by (unfold Str.npos in B; lia).
    inversion H. eauto.
  - unfold Grassfirealpha.output, Str.rfind in H.
    rewrite (rfind_pos_none _ R) in H. cbv zeta in H.
    unfold Str.substr_count in H.
    destruct (N.ltb_spec (Str.size input) 0) as [K|_]; [lia|].
    destruct (N.ltb_spec (Str.size input) Str.npos) as [_|K];
      [discriminate | lia].
Qed.

(** X19. The output never has the name of the input, it is six
    characters longer, and two inputs never get the same output. *)
Theorem output_names_do_not_collide (input input' o : string) :
  (Str.size input < Str.npos)%N -> (Str.size input' < Str.npos)%N ->
  Grassfirealpha.output input = Normal o ->
  o <> input /\
  String.length o = String.length input + 6 /\
  (Grassfirealpha.output input' = Normal o -> input' = input).
Proof.
  intros B B' H.
  destruct (output_inv _ _ B H) as (front & back & -> & N & ->).
  assert (L : String.length (front ++ "_grass" ++ String "." back) =
              String.length (front ++ String "." back) + 6).
  { rewrite !length_append. cbn [String.length]. lia. }
  split; [|split; [exact L|]].
  - intros E. rewrite E in L. lia.
  - intros H'.
    destruct (output_inv _ _ B' H') as (front' & back' & -> & N' & E).
    change (front ++ "_grass" ++ String "." back)
      with (front ++ ("_grass" ++ String "." back)) in E.
    rewrite <- (append_assoc front "_grass" (String "." back)) in E.
    rewrite <- (append_assoc front' "_grass" (String "." back')) in E.
    destruct (last_dot_unique _ _ _ _ N N' E) as [Ef ->].
    now rewrite (append_cancel_r _ _ _ Ef).
Qed.

Lemma output_names_do_not_collide_witness :
  "a.b_grass.tif" <> "a.b.tif" /\
  String.length "a.b_grass.tif" = String.length "a.b.tif" + 6 /\
  (Grassfirealpha.output "a.b.tif" = Normal "a.b_grass.tif" ->
   "a.b.tif" = "a.b.tif").
Proof.
  apply (output_names_do_not_collide "a.b.tif" "a.b.tif" "a.b_grass.tif");
    [vm_compute; reflexivity | vm_compute; reflexivity | reflexivity].
Defined.

(** * Concrete runs of the client *)

Local Open Scope list_scope.

Lemma updates_are_conserved_witness :
  RemoteIndex.sent_updates
    (RemoteIndex.wire
       (RemoteIndex.perform_all Example.no_region Example.no_region
          Example.no_region Example.no_region Example.service
          Example.session Example.fresh)) ++
  RemoteIndex.pending
    (RemoteIndex.perform_all Example.no_region Example.no_region
       Example.no_region Example.no_region Example.service
       Example.session Example.fresh) =
    RemoteIndex.enqueued
      (RemoteIndex.m_platefile_id (RemoteIndex.self Example.fresh))
      Example.session /\
  RemoteIndex.sent_updates
    (RemoteIndex.wire
       (snd (RemoteIndex.destroy
               Example.service
               (RemoteIndex.perform_all Example.no_region Example.no_region
                  Example.no_region Example.no_region Example.service
                  Example.session Example.fresh)))) =
    RemoteIndex.enqueued
      (RemoteIndex.m_platefile_id (RemoteIndex.self Example.fresh))
      Example.session.
Proof.
  refine (updates_are_conserved
            Example.no_region Example.no_region Example.no_region
            Example.no_region "index" Example.unique Example.service
            Example.session Example.fresh _).
  left. exists "pf://myexchange/foo.plate", 0%Z. reflexivity.
Defined.

Lemma batches_hold_at_most_ten_witness :
  Forall (fun r => List.length (RemoteIndex.batch_of r) <= 10)
         (RemoteIndex.wire
            (RemoteIndex.perform_all Example.no_region Example.no_region
               Example.no_region Example.no_region Example.service
               Example.session Example.fresh)).
Proof.
  refine (batches_hold_at_most_ten
           Example.no_region Example.no_region Example.no_region
           Example.no_region "index" Example.unique Example.service
           Example.session Example.fresh _).
  left. exists "pf://myexchange/foo.plate", 0%Z. reflexivity.
Defined.

Lemma flushing_requests_follow_a_batch_witness :
  RemoteIndex.flush_ordered
    false
    (RemoteIndex.wire
       (RemoteIndex.perform_all Example.no_region Example.no_region
          Example.no_region Example.no_region Example.service
          Example.session Example.fresh)) = true.
Proof.
  refine (flushing_requests_follow_a_batch
           Example.no_region Example.no_region Example.no_region
           Example.no_region "index" Example.unique Example.service
           Example.session Example.fresh _).
  left. exists "pf://myexchange/foo.plate", 0%Z. reflexivity.
Defined.


Lemma one_session_per_client_witness :
  exists s rest,
    RemoteIndex.wire
      (RemoteIndex.perform_all Example.no_region Example.no_region
         Example.no_region Example.no_region Example.service
         Example.session Example.fresh) = s :: rest /\
    RemoteIndex.is_session s = true /\
    Forall (fun r => RemoteIndex.is_session r = false) rest.
Proof.
  refine (one_session_per_client
           Example.no_region Example.no_region Example.no_region
           Example.no_region "index" Example.unique Example.service
           Example.session Example.fresh _).
  left. exists "pf://myexchange/foo.plate", 0%Z. reflexivity.
Defined.

Lemma writes_are_sent_before_a_flushing_request_witness :
  exists before own,
    RemoteIndex.wire
      (RemoteIndex.perform_all Example.no_region Example.no_region
         Example.no_region Example.no_region Example.service
         (Example.session ++ [RemoteIndex.do_num_levels])
         Example.fresh) = before ++ [own] /\
    RemoteIndex.flushes_first own = true /\
    RemoteIndex.sent_updates before =
      RemoteIndex.enqueued
        (RemoteIndex.m_platefile_id (RemoteIndex.self Example.fresh))
        Example.session /\
    RemoteIndex.pending
      (RemoteIndex.perform_all Example.no_region Example.no_region
         Example.no_region Example.no_region Example.service
         (Example.session ++ [RemoteIndex.do_num_levels])
         Example.fresh) = [].
Proof.
  refine (writes_are_sent_before_a_flushing_request
           Example.no_region Example.no_region Example.no_region
           Example.no_region "index" Example.unique Example.service
           Example.session RemoteIndex.do_num_levels Example.fresh _ _).
  - left. exists "pf://myexchange/foo.plate", 0%Z. reflexivity.
  - reflexivity.
Defined.

Lemma second_flush_sends_an_empty_batch_witness :
  exists own1 own2,
    RemoteIndex.wire
      (RemoteIndex.perform_all Example.no_region Example.no_region
         Example.no_region Example.no_region Example.service
         [RemoteIndex.do_read_request 0 0 0 7 true; RemoteIndex.do_num_levels]
         Example.one_pending) =
      RemoteIndex.wire Example.one_pending ++
      [RemoteIndex.MultiWriteUpdate
         (RemoteIndex.pending Example.one_pending);
       own1; RemoteIndex.MultiWriteUpdate []; own2].
Proof.
  apply (second_flush_sends_an_empty_batch
           Example.no_region Example.no_region Example.no_region
           Example.no_region Example.service
           (RemoteIndex.do_read_request 0 0 0 7 true)
           RemoteIndex.do_num_levels Example.one_pending);
    reflexivity.
Defined.

Lemma multi_read_keeps_the_order_of_the_reply_witness :
  map fst (fst (RemoteIndex.multi_read_request
                  Example.versions_service 1 2 3 0 9 Example.one_pending)) =
    [3%Z; 5%Z] /\
  map snd (fst (RemoteIndex.multi_read_request
                  Example.versions_service 1 2 3 0 9 Example.one_pending)) =
    [30; 50].
Proof.
  apply (multi_read_keeps_the_order_of_the_reply
           Example.versions_service 1 2 3 0 9 Example.one_pending).
  cbn. lia.
Defined.
